(** * TwitchRSS: a shallow embedding of [twitchrss.py]

    The service answers [/vod/<channel>] and [/vodonly/<channel>] with a feed
    of the channel's videos.  The embedding follows the source function by
    function: [authorize], [get_audiostream_url], [vod], [vodonly],
    [get_inner], [fetch_userid], [fetch_vods], [fetch_json],
    [extract_userid] and [construct_rss].

    Module globals, the three caches, the network and the [streamlink]
    subprocess are threaded as an explicit [world]; Python exceptions
    (Flask's [abort] included) are the [Raise] branch of a small
    state-and-error monad.  *)

From Stdlib Require Import ZArith List String Ascii Bool Lia DecimalString.
Import ListNotations.
Open Scope string_scope.
Open Scope Z_scope.

Set Implicit Arguments.
Set Warnings "-register-all".

(** ** Python values *)

(** Decoded JSON, as [json.loads] delivers it.  Numbers are kept as
    integers; an object is its list of members. *)
Inductive json : Type :=
| JNull
| JBool (b : bool)
| JNum (z : Z)
| JStr (s : string)
| JArr (l : list json)
| JObj (kv : list (string * json)).

(** The exceptions the program can meet.  [HTTPException c] is what
    [abort(c)] raises. *)
Inductive exn : Type :=
| HTTPException (code : Z)
| KeyError
| IndexError
| TypeError
| AttributeError
| ValueError
| JSONDecodeError
| URLError
| OSError
| Exception (msg : string).

Inductive result (A : Type) : Type :=
| Ok (a : A)
| Raise (e : exn).
Arguments Ok {A} a.
Arguments Raise {A} e.

(** Python's built-ins and standard library, as far as the program calls
    them.  A [string] is a sequence of code points below 256. *)
Module Py.

(** *** Characters and strings *)

Definition code (c : ascii) : Z := Z.of_nat (nat_of_ascii c).

Definition is_digit (c : ascii) : bool := (48 <=? code c) && (code c <=? 57).
Definition is_upper (c : ascii) : bool := (65 <=? code c) && (code c <=? 90).
Definition is_lower (c : ascii) : bool := (97 <=? code c) && (code c <=? 122).
Definition digit_val (c : ascii) : Z := code c - 48.

Definition quote_mark : string := String (ascii_of_nat 34) EmptyString.
Definition newline : ascii := ascii_of_nat 10.

Fixpoint str_all (p : ascii -> bool) (s : string) : bool :=
  match s with
  | EmptyString => true
  | String c s' => p c && str_all p s'
  end.

Definition str_prefix (p s : string) : bool := String.prefix p s.

(** [s.replace(old, new)] for a non-empty [old]: every occurrence, left to
    right, without overlap.  [skip] counts the characters of a match still
    to be dropped. *)
Fixpoint replace_from (old new : string) (skip : nat) (s : string) : string :=
  match s with
  | EmptyString => EmptyString
  | String c s' =>
      match skip with
      | S k => replace_from old new k s'
      | O =>
          if str_prefix old s
          then new ++ replace_from old new (Nat.pred (String.length old)) s'
          else String c (replace_from old new O s')
      end
  end.

Definition replace (s old new : string) : string := replace_from old new O s.

(** [needle in s] *)
Fixpoint contains (needle s : string) : bool :=
  str_prefix needle s ||
  match s with
  | EmptyString => false
  | String _ s' => contains needle s'
  end.

(** [s.rstrip("\n")] *)
Fixpoint rstrip_newline (s : string) : string :=
  match s with
  | EmptyString => EmptyString
  | String c s' =>
      match rstrip_newline s' with
      | EmptyString => if Ascii.eqb c newline then EmptyString else String c EmptyString
      | r => String c r
      end
  end.

(** *** Truthiness, equality and hashing of decoded values *)

Definition truthy (v : json) : bool :=
  match v with
  | JNull => false
  | JBool b => b
  | JNum z => negb (z =? 0)
  | JStr s => negb (String.eqb s EmptyString)
  | JArr l => match l with [] => false | _ => true end
  | JObj kv => match kv with [] => false | _ => true end
  end.

Definition hashable (v : json) : bool :=
  match v with
  | JArr _ | JObj _ => false
  | _ => true
  end.

(** [==] on hashable values: [True == 1] and [False == 0]. *)
Definition key_eqb (a b : json) : bool :=
  match a, b with
  | JNull, JNull => true
  | JBool x, JBool y => Bool.eqb x y
  | JNum x, JNum y => x =? y
  | JBool x, JNum y | JNum y, JBool x => (if x then 1 else 0) =? y
  | JStr x, JStr y => String.eqb x y
  | _, _ => false
  end.

(** [d[k]] on a decoded object. *)
Fixpoint dict_get (kv : list (string * json)) (k : string) : option json :=
  match kv with
  | [] => None
  | (k', v) :: rest => if String.eqb k' k then Some v else dict_get rest k
  end.

(** [v[k]] for a string subscript [k]. *)
Definition getitem (v : json) (k : string) : result json :=
  match v with
  | JObj kv => match dict_get kv k with Some x => Ok x | None => Raise KeyError end
  | _ => Raise TypeError
  end.

(** [v[0]] *)
Definition getitem0 (v : json) : result json :=
  match v with
  | JArr (x :: _) => Ok x
  | JArr [] => Raise IndexError
  | JStr (String c _) => Ok (JStr (String c EmptyString))
  | JStr EmptyString => Raise IndexError
  | JObj _ => Raise KeyError
  | _ => Raise TypeError
  end.

(** *** [int(v)] *)

(** What [str.strip] and [int] treat as white space, among the code points
    below 256. *)
Definition is_space (c : ascii) : bool :=
  let n := code c in
  ((9 <=? n) && (n <=? 13)) || ((28 <=? n) && (n <=? 32)) || (n =? 133) || (n =? 160).

Fixpoint lstrip (s : string) : string :=
  match s with
  | String c s' => if is_space c then lstrip s' else s
  | EmptyString => EmptyString
  end.

Fixpoint rstrip (s : string) : string :=
  match s with
  | EmptyString => EmptyString
  | String c s' =>
      match rstrip s' with
      | EmptyString => if is_space c then EmptyString else String c EmptyString
      | r => String c r
      end
  end.

(** Decimal digits, single underscores allowed between two digits.
    [acc] is the value read so far; the previous character was a digit. *)
Fixpoint digits_after (acc : Z) (s : string) : option Z :=
  match s with
  | EmptyString => Some acc
  | String c s' =>
      if is_digit c then digits_after (10 * acc + digit_val c) s'
      else if Ascii.eqb c "_" then
        match s' with
        | String d s'' =>
            if is_digit d then digits_after (10 * acc + digit_val d) s'' else None
        | EmptyString => None
        end
      else None
  end.

Definition digits (s : string) : option Z :=
  match s with
  | String c s' => if is_digit c then digits_after (digit_val c) s' else None
  | EmptyString => None
  end.

Definition int_of_str (s : string) : option Z :=
  match rstrip (lstrip s) with
  | String "-" r => option_map Z.opp (digits r)
  | String "+" r => digits r
  | r => digits r
  end.

Definition int (v : json) : result Z :=
  match v with
  | JNum z => Ok z
  | JBool b => Ok (if b then 1 else 0)
  | JStr s => match int_of_str s with Some z => Ok z | None => Raise ValueError end
  | _ => Raise TypeError
  end.

(** *** [urllib.parse.quote(s, safe='/:')] *)

Definition hex_digit (n : Z) : ascii :=
  ascii_of_nat (Z.to_nat (if n <? 10 then 48 + n else 55 + n)).

Definition percent (n : Z) : string :=
  String "%" (String (hex_digit (n / 16)) (String (hex_digit (n mod 16)) EmptyString)).

Definition always_safe (c : ascii) : bool :=
  is_upper c || is_lower c || is_digit c ||
  Ascii.eqb c "_" || Ascii.eqb c "." || Ascii.eqb c "-" || Ascii.eqb c "~".

(** A code point below 128 is one byte of UTF-8, the others two. *)
Definition quote_char (c : ascii) : string :=
  let n := code c in
  if n <? 128 then
    if always_safe c || Ascii.eqb c "/" || Ascii.eqb c ":"
    then String c EmptyString
    else percent n
  else percent (192 + n / 64) ++ percent (128 + n mod 64).

Fixpoint quote (s : string) : string :=
  match s with
  | EmptyString => EmptyString
  | String c s' => quote_char c ++ quote s'
  end.

(** *** [re.compile("^[a-zA-Z0-9_]{2,25}$").match] *)

Definition word_char (c : ascii) : bool :=
  is_lower c || is_upper c || is_digit c || Ascii.eqb c "_".

(** Splits [s] after its longest prefix of [p]-characters. *)
Fixpoint span (p : ascii -> bool) (s : string) : nat * string :=
  match s with
  | String c s' =>
      if p c then let '(n, r) := span p s' in (S n, r) else (O, s)
      | EmptyString => (O, EmptyString)
  end.

(** [$] matches at the end of the string and also just before a newline
    that ends it. *)
Definition at_dollar (rest : string) : bool :=
  match rest with
  | EmptyString => true
  | String c EmptyString => Ascii.eqb c newline
  | _ => false
  end.

Definition match_channel (s : string) : bool :=
  let '(n, rest) := span word_char s in
  (2 <=? n)%nat && (n <=? 25)%nat && at_dollar rest.

(** *** [datetime.datetime.strptime(s, '%Y-%m-%dT%H:%M:%SZ')] *)

Record datetime : Type := mk_datetime {
  year : Z; month : Z; day : Z; hour : Z; minute : Z; second : Z
}.

Definition chr_in (lo hi c : ascii) : bool := (code lo <=? code c) && (code c <=? code hi).

(** One directive: its two-character alternatives are tried before the
    one-character one.  A blank counts for nothing in the value. *)
Definition group (two : ascii -> ascii -> bool) (one : ascii -> bool) (s : string)
  : option (Z * string) :=
  match s with
  | String a (String b r) =>
      if two a b
      then Some ((if Ascii.eqb a " " then 0 else 10 * digit_val a) + digit_val b, r)
      else if one a then Some (digit_val a, String b r) else None
  | String a EmptyString => if one a then Some (digit_val a, EmptyString) else None
  | EmptyString => None
  end.

(** [%Y] is [\d\d\d\d]. *)
Definition group_Y (s : string) : option (Z * string) :=
  match s with
  | String a (String b (String c (String d r))) =>
      if is_digit a && is_digit b && is_digit c && is_digit d
      then Some (1000 * digit_val a + 100 * digit_val b + 10 * digit_val c + digit_val d, r)
      else None
  | _ => None
  end.

(** [%m] is [1[0-2]|0[1-9]|[1-9]]. *)
Definition group_m : string -> option (Z * string) :=
  group (fun a b => (Ascii.eqb a "1" && chr_in "0" "2" b) || (Ascii.eqb a "0" && chr_in "1" "9" b))
        (chr_in "1" "9").

(** [%d] is [3[0-1]|[1-2]\d|0[1-9]|[1-9]| [1-9]]. *)
Definition group_d : string -> option (Z * string) :=
  group (fun a b => (Ascii.eqb a "3" && chr_in "0" "1" b) || (chr_in "1" "2" a && is_digit b)
                    || (Ascii.eqb a "0" && chr_in "1" "9" b) || (Ascii.eqb a " " && chr_in "1" "9" b))
        (chr_in "1" "9").

(** [%H] is [2[0-3]|[0-1]\d|\d]. *)
Definition group_H : string -> option (Z * string) :=
  group (fun a b => (Ascii.eqb a "2" && chr_in "0" "3" b) || (chr_in "0" "1" a && is_digit b))
        is_digit.

(** [%M] is [[0-5]\d|\d]. *)
Definition group_M : string -> option (Z * string) :=
  group (fun a b => chr_in "0" "5" a && is_digit b) is_digit.

(** [%S] is [6[0-1]|[0-5]\d|\d]. *)
Definition group_S : string -> option (Z * string) :=
  group (fun a b => (Ascii.eqb a "6" && chr_in "0" "1" b) || (chr_in "0" "5" a && is_digit b))
        is_digit.

(** A literal of the format; the pattern is compiled with [IGNORECASE]. *)
Definition literal (c : ascii) (s : string) : option string :=
  match s with
  | String a r =>
      if Ascii.eqb a c || (is_upper c && (code a =? code c + 32)) then Some r else None
  | EmptyString => None
  end.

Definition is_leap (y : Z) : bool :=
  (y mod 4 =? 0) && (negb (y mod 100 =? 0) || (y mod 400 =? 0)).

Definition days_in_month (y m : Z) : Z :=
  if m =? 2 then (if is_leap y then 29 else 28)
  else if (m =? 4) || (m =? 6) || (m =? 9) || (m =? 11) then 30 else 31.

(** The fields the pattern lets through that the [datetime] constructor
    refuses: year 0, a day past the month's end, second 60 or 61. *)
Definition valid_datetime (d : datetime) : bool :=
  (1 <=? year d) && (day d <=? days_in_month (year d) (month d)) && (second d <=? 59).

Definition bind_opt {A B : Type} (o : option A) (f : A -> option B) : option B :=
  match o with Some a => f a | None => None end.

Definition strptime_match (s : string) : option datetime :=
  bind_opt (group_Y s) (fun '(yr, s) =>
  bind_opt (literal "-" s) (fun s =>
  bind_opt (group_m s) (fun '(mo, s) =>
  bind_opt (literal "-" s) (fun s =>
  bind_opt (group_d s) (fun '(dy, s) =>
  bind_opt (literal "T" s) (fun s =>
  bind_opt (group_H s) (fun '(hr, s) =>
  bind_opt (literal ":" s) (fun s =>
  bind_opt (group_M s) (fun '(mi, s) =>
  bind_opt (literal ":" s) (fun s =>
  bind_opt (group_S s) (fun '(sc, s) =>
  bind_opt (literal "Z" s) (fun s =>
  match s with
  | EmptyString => Some (mk_datetime yr mo dy hr mi sc)
  | _ => None
  end)))))))))))).

(** [None] stands for the [ValueError] of a string that does not match the
    format, leaves data unconverted or names no date. *)
Definition strptime (s : string) : option datetime :=
  match strptime_match s with
  | Some d => if valid_datetime d then Some d else None
  | None => None
  end.

(** *** [repr(v)], [str(v)] and [template % v] *)

Definition backslash : ascii := ascii_of_nat 92.
Definition apostrophe : ascii := ascii_of_nat 39.

Definition lower_hex (n : Z) : ascii :=
  ascii_of_nat (Z.to_nat (if n <? 10 then 48 + n else 87 + n)).

Definition printable (c : ascii) : bool :=
  let n := code c in
  ((32 <=? n) && (n <=? 126)) || ((161 <=? n) && negb (n =? 173)).

Definition repr_char (q c : ascii) : string :=
  if Ascii.eqb c q || Ascii.eqb c backslash then String backslash (String c EmptyString)
  else if code c =? 10 then String backslash "n"
  else if code c =? 13 then String backslash "r"
  else if code c =? 9 then String backslash "t"
  else if printable c then String c EmptyString
  else String backslash (String "x" (String (lower_hex (code c / 16))
                                             (String (lower_hex (code c mod 16)) EmptyString))).

Fixpoint repr_chars (q : ascii) (s : string) : string :=
  match s with
  | EmptyString => EmptyString
  | String c s' => repr_char q c ++ repr_chars q s'
  end.

(** Single quotes, unless the text has one and has no double quote. *)
Definition repr_str (s : string) : string :=
  let q := if contains (String apostrophe EmptyString) s && negb (contains quote_mark s)
           then ascii_of_nat 34 else apostrophe in
  String q (repr_chars q s ++ String q EmptyString).

Definition str_of_Z (z : Z) : string := NilZero.string_of_int (Z.to_int z).

Fixpoint repr (v : json) : string :=
  match v with
  | JNull => "None"
  | JBool b => if b then "True" else "False"
  | JNum z => str_of_Z z
  | JStr s => repr_str s
  | JArr l =>
      "[" ++ (fix items (l : list json) : string :=
                match l with
                | [] => EmptyString
                | x :: r => repr x ++ match r with [] => EmptyString | _ => ", " ++ items r end
                end) l ++ "]"
  | JObj kv =>
      "{" ++ (fix members (kv : list (string * json)) : string :=
                match kv with
                | [] => EmptyString
                | (k, x) :: r =>
                    repr_str k ++ ": " ++ repr x
                    ++ match r with [] => EmptyString | _ => ", " ++ members r end
                end) kv ++ "}"
  end.

Definition str (v : json) : string :=
  match v with
  | JStr s => s
  | _ => repr v
  end.

(** What [for x in v] goes through. *)
Definition iter (v : json) : result (list json) :=
  match v with
  | JArr l => Ok l
  | JObj kv => Ok (map (fun p => JStr (fst p)) kv)
  | JStr s => Ok (map (fun c => JStr (String c EmptyString)) (list_ascii_of_string s))
  | _ => Raise TypeError
  end.

End Py.

(** ** cachetools: [TTLCache] and the [cached] decorator

    The links are kept least recently used first; a link is served while the
    timer is strictly below [expires]. *)
Module cachetools.

Section Cache.
Variable V : Type.

Record link : Type := mk_link { key : json; value : V; expires : Z }.

Record TTLCache : Type := mk_cache { maxsize : nat; ttl : Z; links : list link }.

Definition with_links (c : TTLCache) (ls : list link) : TTLCache :=
  mk_cache (maxsize c) (ttl c) ls.

Definition expired (now : Z) (l : link) : bool := negb (now <? expires l).

(** [expire(time)] drops every link whose time has come. *)
Definition expire (now : Z) (ls : list link) : list link :=
  filter (fun l => negb (expired now l)) ls.

Fixpoint find (k : json) (ls : list link) : option link :=
  match ls with
  | [] => None
  | l :: r => if Py.key_eqb (key l) k then Some l else find k r
  end.

Definition remove (k : json) (ls : list link) : list link :=
  filter (fun l => negb (Py.key_eqb (key l) k)) ls.

(** [cache[k]]: [None] is the [KeyError] of a miss.  Looking a link up
    makes it the most recently used one, expired or not. *)
Definition getitem (c : TTLCache) (k : json) (now : Z) : option V * TTLCache :=
  match find k (links c) with
  | None => (None, c)
  | Some l =>
      let c' := with_links c (remove k (links c) ++ [l])%list in
      if expired now l then (None, c') else (Some (value l), c')
  end.

(** [cache[k] = v]: expired links go first; a new key in a full cache
    pushes out the least recently used links; a cache of size zero
    stores nothing ([ValueError], which [cached] swallows). *)
Definition setitem (c : TTLCache) (k : json) (v : V) (now : Z) : TTLCache :=
  let live := expire now (links c) in
  if (maxsize c <? 1)%nat then with_links c live
  else
    let kept := match find k live with
                | Some _ => remove k live
                | None => skipn (S (List.length live) - maxsize c) live
                end in
    with_links c (kept ++ [mk_link k v (now + ttl c)])%list.

End Cache.

Arguments mk_link {V} key value expires.
Arguments mk_cache {V} maxsize ttl links.

End cachetools.
Import cachetools.

(** ** The world of the process *)

(** A body as the program looks at it: empty or not, and what [json.loads]
    makes of it ([Bytes_other]: not a JSON text). *)
Inductive bytes : Type :=
| Bytes_empty
| Bytes_json (j : json)
| Bytes_other.

(** What one [urlopen] and [read] (with [gzip.decompress] where the server
    says so) come to: an exception or the body. *)
Inductive response : Type :=
| Failure
| Response (body : bytes).

Inductive request : Type :=
| Post_token (client_id client_secret : string)
| Get (url_template : string) (id : json) (bearer : string) (client_id : string).

(** One run of [streamlink]: return code and standard output. *)
Record completed : Type := mk_completed { returncode : Z; stdout : string }.

Record world : Type := mk_world {
  clock : Z;                                  (* seconds, for [time.time] and the caches' timer *)
  upstream : list (N * response);             (* what the next calls of [urlopen] take and meet *)
  requests : list request;                    (* the calls of [urlopen] so far *)
  streamlink : list (N * completed);          (* what the next runs of the subprocess take and give *)
  commands : list (list string);              (* the subprocesses started so far *)
  TWITCH_CLIENT_ID : string;
  TWITCH_SECRET : string;
  TWITCH_OAUTH_TOKEN : json;
  TWITCH_OAUTH_EXPIRE_EPOCH : Z;
  audiostream_cache : TTLCache string;
  userid_cache : TTLCache bytes;
  vods_cache : TTLCache bytes
}.

Definition VOD_URL_TEMPLATE := "https://api.twitch.tv/helix/videos?user_id=%s&type=all".
Definition USERID_URL_TEMPLATE := "https://api.twitch.tv/helix/users?login=%s".
Definition VODCACHE_LIFETIME : Z := 10 * 60.
Definition USERIDCACHE_LIFETIME : Z := 24 * 60 * 60.
Definition CHANNEL_FILTER : string -> bool := Py.match_channel.

(** The process as it starts: nothing cached, no token. *)
Definition start (now : Z) (client_id secret : string)
    (net : list (N * response)) (procs : list (N * completed)) : world :=
  mk_world now net [] procs [] client_id secret (JStr EmptyString) 0
           (mk_cache 3000 USERIDCACHE_LIFETIME [])
           (mk_cache 3000 USERIDCACHE_LIFETIME [])
           (mk_cache 500 VODCACHE_LIFETIME []).

Definition set_token (t : json) (w : world) : world :=
  mk_world (clock w) (upstream w) (requests w) (streamlink w) (commands w)
           (TWITCH_CLIENT_ID w) (TWITCH_SECRET w) t (TWITCH_OAUTH_EXPIRE_EPOCH w)
           (audiostream_cache w) (userid_cache w) (vods_cache w).

Definition set_expire_epoch (e : Z) (w : world) : world :=
  mk_world (clock w) (upstream w) (requests w) (streamlink w) (commands w)
           (TWITCH_CLIENT_ID w) (TWITCH_SECRET w) (TWITCH_OAUTH_TOKEN w) e
           (audiostream_cache w) (userid_cache w) (vods_cache w).

Definition set_audiostream_cache (c : TTLCache string) (w : world) : world :=
  mk_world (clock w) (upstream w) (requests w) (streamlink w) (commands w)
           (TWITCH_CLIENT_ID w) (TWITCH_SECRET w) (TWITCH_OAUTH_TOKEN w)
           (TWITCH_OAUTH_EXPIRE_EPOCH w) c (userid_cache w) (vods_cache w).

Definition set_userid_cache (c : TTLCache bytes) (w : world) : world :=
  mk_world (clock w) (upstream w) (requests w) (streamlink w) (commands w)
           (TWITCH_CLIENT_ID w) (TWITCH_SECRET w) (TWITCH_OAUTH_TOKEN w)
           (TWITCH_OAUTH_EXPIRE_EPOCH w) (audiostream_cache w) c (vods_cache w).

Definition set_vods_cache (c : TTLCache bytes) (w : world) : world :=
  mk_world (clock w) (upstream w) (requests w) (streamlink w) (commands w)
           (TWITCH_CLIENT_ID w) (TWITCH_SECRET w) (TWITCH_OAUTH_TOKEN w)
           (TWITCH_OAUTH_EXPIRE_EPOCH w) (audiostream_cache w) (userid_cache w) c.

(** Time goes by between two requests. *)
Definition set_clock (t : Z) (w : world) : world :=
  mk_world t (upstream w) (requests w) (streamlink w) (commands w)
           (TWITCH_CLIENT_ID w) (TWITCH_SECRET w) (TWITCH_OAUTH_TOKEN w)
           (TWITCH_OAUTH_EXPIRE_EPOCH w) (audiostream_cache w) (userid_cache w) (vods_cache w).

(** ** Computations: state and exceptions *)

Definition M (A : Type) : Type := world -> result A * world.

Definition ret {A : Type} (a : A) : M A := fun w => (Ok a, w).
Definition raise {A : Type} (e : exn) : M A := fun w => (Raise e, w).
Definition bind {A B : Type} (m : M A) (k : A -> M B) : M B :=
  fun w => match m w with
           | (Ok a, w') => k a w'
           | (Raise e, w') => (Raise e, w')
           end.
Definition lift {A : Type} (r : result A) : M A := fun w => (r, w).
Definition gets {A : Type} (f : world -> A) : M A := fun w => (Ok (f w), w).
Definition modify (f : world -> world) : M unit := fun w => (Ok tt, f w).

Notation "x <- m ;; k" := (bind m (fun x => k))
  (at level 61, m at next level, right associativity).
Notation "' pat <- m ;; k" := (bind m (fun x => let 'pat := x in k))
  (at level 61, pat pattern, m at next level, right associativity).
Notation "m ;;; k" := (bind m (fun _ => k))
  (at level 61, right associativity).

(** [flask.abort] *)
Definition abort {A : Type} (code : Z) : M A := raise (HTTPException code).

(** [round(time.time())], the clock being in whole seconds. *)
Definition round_time : M Z := gets clock.

(** [urllib.request.urlopen(request, timeout=3)] and the reading of the
    body.  With nothing left upstream the call fails at once. *)
Definition urlopen (r : request) : M bytes :=
  fun w =>
    let log := (requests w ++ [r])%list in
    match upstream w with
    | [] =>
        (Raise URLError,
         mk_world (clock w) [] log (streamlink w) (commands w)
                  (TWITCH_CLIENT_ID w) (TWITCH_SECRET w) (TWITCH_OAUTH_TOKEN w)
                  (TWITCH_OAUTH_EXPIRE_EPOCH w)
                  (audiostream_cache w) (userid_cache w) (vods_cache w))
    | (dt, resp) :: rest =>
        (match resp with Failure => Raise URLError | Response b => Ok b end,
         mk_world (clock w + Z.of_N dt) rest log (streamlink w) (commands w)
                  (TWITCH_CLIENT_ID w) (TWITCH_SECRET w) (TWITCH_OAUTH_TOKEN w)
                  (TWITCH_OAUTH_EXPIRE_EPOCH w)
                  (audiostream_cache w) (userid_cache w) (vods_cache w))
    end.

(** [subprocess.Popen(command, ...)] and [communicate()]. *)
Definition run (command : list string) : M completed :=
  fun w =>
    let log := (commands w ++ [command])%list in
    match streamlink w with
    | [] =>
        (Raise OSError,
         mk_world (clock w) (upstream w) (requests w) [] log
                  (TWITCH_CLIENT_ID w) (TWITCH_SECRET w) (TWITCH_OAUTH_TOKEN w)
                  (TWITCH_OAUTH_EXPIRE_EPOCH w)
                  (audiostream_cache w) (userid_cache w) (vods_cache w))
    | (dt, p) :: rest =>
        (Ok p,
         mk_world (clock w + Z.of_N dt) (upstream w) (requests w) rest log
                  (TWITCH_CLIENT_ID w) (TWITCH_SECRET w) (TWITCH_OAUTH_TOKEN w)
                  (TWITCH_OAUTH_EXPIRE_EPOCH w)
                  (audiostream_cache w) (userid_cache w) (vods_cache w))
    end.

(** [json.loads] *)
Definition json_loads (b : bytes) : result json :=
  match b with
  | Bytes_json j => Ok j
  | _ => Raise JSONDecodeError
  end.

(** [@cached(cache=...)]: the key is looked up; on a miss the function runs
    and its value is stored.  An exception of the function leaves before the
    store. *)
Definition cached {V : Type}
    (get : world -> TTLCache V) (set : TTLCache V -> world -> world)
    (func : json -> M V) (arg : json) : M V :=
  if negb (Py.hashable arg) then raise TypeError
  else fun w =>
    match getitem (get w) arg (clock w) with
    | (Some v, c) => (Ok v, set c w)
    | (None, c) =>
        match func arg (set c w) with
        | (Ok v, w') => (Ok v, set (setitem (get w') arg v (clock w')) w')
        | (Raise e, w') => (Raise e, w')
        end
    end.

(** ** feedgen: what the program tells the feed generator

    A field nobody set is [JNull] or [None]; [add_entry] puts the new entry
    first and hands it out for the setters that follow. *)
Module feedgen.

Record FeedEntry : Type := mk_entry {
  entry_title : json;
  entry_enclosure : option (string * string);   (* url, type *)
  entry_link : option (json * string);          (* href, rel *)
  entry_description : option string;
  entry_pubDate : option Py.datetime;
  entry_updated : option Py.datetime;
  entry_guid : json
}.

Record FeedGenerator : Type := mk_feed {
  feed_image : json;
  feed_id : string;
  feed_title : string;
  feed_link : string * string;                  (* href, rel *)
  feed_author : string;
  feed_description : string;
  feed_entries : list FeedEntry
}.

Definition blank : FeedEntry := mk_entry JNull None None None None None JNull.

Definition add_entry (f : FeedGenerator) : FeedGenerator :=
  mk_feed (feed_image f) (feed_id f) (feed_title f) (feed_link f) (feed_author f)
          (feed_description f) (blank :: feed_entries f).

(** A setter called on the entry that [add_entry] returned last. *)
Definition on_item (g : FeedEntry -> FeedEntry) (f : FeedGenerator) : FeedGenerator :=
  mk_feed (feed_image f) (feed_id f) (feed_title f) (feed_link f) (feed_author f)
          (feed_description f)
          match feed_entries f with
          | item :: rest => g item :: rest
          | [] => []
          end.

Definition title (v : json) (e : FeedEntry) : FeedEntry :=
  mk_entry v (entry_enclosure e) (entry_link e) (entry_description e)
           (entry_pubDate e) (entry_updated e) (entry_guid e).
Definition enclosure (url type : string) (e : FeedEntry) : FeedEntry :=
  mk_entry (entry_title e) (Some (url, type)) (entry_link e) (entry_description e)
           (entry_pubDate e) (entry_updated e) (entry_guid e).
Definition link (href : json) (rel : string) (e : FeedEntry) : FeedEntry :=
  mk_entry (entry_title e) (entry_enclosure e) (Some (href, rel)) (entry_description e)
           (entry_pubDate e) (entry_updated e) (entry_guid e).
Definition description (d : string) (e : FeedEntry) : FeedEntry :=
  mk_entry (entry_title e) (entry_enclosure e) (entry_link e) (Some d)
           (entry_pubDate e) (entry_updated e) (entry_guid e).
Definition pubDate (d : Py.datetime) (e : FeedEntry) : FeedEntry :=
  mk_entry (entry_title e) (entry_enclosure e) (entry_link e) (entry_description e)
           (Some d) (entry_updated e) (entry_guid e).
Definition updated (d : Py.datetime) (e : FeedEntry) : FeedEntry :=
  mk_entry (entry_title e) (entry_enclosure e) (entry_link e) (entry_description e)
           (entry_pubDate e) (Some d) (entry_guid e).
Definition guid (v : json) (e : FeedEntry) : FeedEntry :=
  mk_entry (entry_title e) (entry_enclosure e) (entry_link e) (entry_description e)
           (entry_pubDate e) (entry_updated e) v.

End feedgen.
Import feedgen.

(** ** The program *)

Fixpoint authorize_attempts (retries_left : nat) (attempt : M unit) : M unit :=
  match retries_left with
  | O => abort 503
  | S k =>
      fun w => match attempt w with
               | (Ok _, w') => (Ok tt, w')
               | (Raise _, w') => authorize_attempts k attempt w'
               end
  end.

(** The body of the [try] in [authorize]. *)
Definition authorize_try (request : request) : M unit :=
  result <- urlopen request ;;
  r <- lift (json_loads result) ;;
  token <- lift (Py.getitem r "access_token") ;;
  modify (set_token token) ;;;
  expires_in <- lift (Py.getitem r "expires_in") ;;
  n <- lift (Py.int expires_in) ;;
  now <- round_time ;;
  modify (set_expire_epoch (n + now)).

Definition authorize : M unit :=
  expire_epoch <- gets TWITCH_OAUTH_EXPIRE_EPOCH ;;
  now <- round_time ;;
  if expire_epoch >=? now then ret tt
  else
    client_id <- gets TWITCH_CLIENT_ID ;;
    secret <- gets TWITCH_SECRET ;;
    authorize_attempts 3 (authorize_try (Post_token client_id secret)).

Definition streamlink_error (out : string) : string :=
  "streamlink returned an error:" ++ out
  ++ String Py.newline (String Py.newline " MAKE SURE YOU RUN THE LATEST VERSION OF STREAMLINK").

(** [get_audiostream_url] without its decorator. *)
Definition get_audiostream_url_inner (vod_url : json) : M string :=
  match vod_url with
  | JStr u =>
      let vod_url := Py.quote u in
      p <- run ["streamlink"; vod_url; "audio"; "--stream-url"] ;;
      if negb (returncode p =? 0) then raise (Exception (streamlink_error (stdout p)))
      else ret (Py.rstrip_newline (stdout p))
  | _ => raise TypeError
  end.

Definition get_audiostream_url : json -> M string :=
  cached audiostream_cache set_audiostream_cache get_audiostream_url_inner.

Fixpoint fetch_attempts (retries_left : nat) (request : request) : M bytes :=
  match retries_left with
  | O => abort 503
  | S k =>
      fun w => match urlopen request w with
               | (Ok body, w') => (Ok body, w')
               | (Raise _, w') => fetch_attempts k request w'
               end
  end.

Definition fetch_json (id : json) (url_template : string) : M bytes :=
  authorize ;;;
  token <- gets TWITCH_OAUTH_TOKEN ;;
  client_id <- gets TWITCH_CLIENT_ID ;;
  match token with
  | JStr bearer => fetch_attempts 3 (Get url_template id bearer client_id)
  | _ => raise TypeError
  end.

Definition fetch_userid : json -> M bytes :=
  cached userid_cache set_userid_cache (fun channel_name => fetch_json channel_name USERID_URL_TEMPLATE).

Definition fetch_vods : json -> M bytes :=
  cached vods_cache set_vods_cache (fun channel_id => fetch_json channel_id VOD_URL_TEMPLATE).

Definition extract_userid (user_info : json) : M (json * json * json) :=
  userid <- lift (Py.getitem user_info "id") ;;
  username <- lift (Py.getitem user_info "display_name") ;;
  icon <- lift (Py.getitem user_info "profile_image_url") ;;
  if Py.truthy username && Py.truthy userid then ret (username, userid, icon)
  else abort 404.

(** The description of an entry before the upstream text is added. *)
Definition thumbnail_html (link : json) (thumbnail_url : string) : string :=
  "<a href=" ++ Py.quote_mark ++ Py.str link ++ Py.quote_mark ++ "><img src="
  ++ Py.quote_mark
  ++ Py.replace (Py.replace thumbnail_url "%{width}" "512") "%{height}" "288"
  ++ Py.quote_mark ++ " /></a>".

(** One turn of the loop of [construct_rss]. *)
Definition add_vod (feed : FeedGenerator) (vod : json) : M FeedGenerator :=
  let feed := add_entry feed in
  link <- lift (Py.getitem vod "url") ;;
  t <- lift (Py.getitem vod "title") ;;
  let feed := on_item (feedgen.title t) feed in
  audio <- get_audiostream_url link ;;
  let feed := on_item (feedgen.enclosure audio "audio/mpeg") feed in
  let feed := on_item (feedgen.link link "related") feed in
  thumbnail_url <- lift (Py.getitem vod "thumbnail_url") ;;
  description <- match thumbnail_url with
                 | JStr s => ret (thumbnail_html link s)
                 | _ => raise AttributeError
                 end ;;
  d <- lift (Py.getitem vod "description") ;;
  description <- (if Py.truthy d
                  then match d with
                       | JStr s => ret (description ++ "<br/>" ++ s)
                       | _ => raise TypeError
                       end
                  else ret description) ;;
  let feed := on_item (feedgen.description description) feed in
  created_at <- lift (Py.getitem vod "created_at") ;;
  date <- match created_at with
          | JStr s => match Py.strptime s with
                      | Some date => ret date
                      | None => raise ValueError
                      end
          | _ => raise TypeError
          end ;;
  let feed := on_item (feedgen.pubDate date) feed in
  let feed := on_item (feedgen.updated date) feed in
  guid <- lift (Py.getitem vod "id") ;;
  ret (on_item (feedgen.guid guid) feed).

Fixpoint add_vods (feed : FeedGenerator) (vods : list json) : M FeedGenerator :=
  match vods with
  | [] => ret feed
  | vod :: rest => feed <- add_vod feed vod ;; add_vods feed rest
  end.

(** The feed and its channel level properties. *)
Definition new_feed (display_name icon : json) : FeedGenerator :=
  mk_feed icon
          "https://github.com/madiele/TwitchToPodcastRSS"
          (Py.str display_name ++ "'s Twitch video RSS")
          ("https://twitchrss.appspot.com/", "self")
          "Twitch RSS Generated"
          ("The RSS Feed of " ++ Py.str display_name ++ "'s videos on Twitch")
          [].

(** The feed that [feed.atom_str()] then writes out. *)
Definition construct_rss (channel_name : string) (vods : json) (display_name icon : json)
    (add_live : bool) : M FeedGenerator :=
  let feed := new_feed display_name icon in
  fun w =>
    match (if Py.truthy vods
           then (items <- lift (Py.iter vods) ;; add_vods feed items)
           else ret feed) w with
    | (Raise KeyError, w') => abort 404 w'
    | other => other
    end.

Inductive rss_data : Type :=
| Atom (feed : FeedGenerator)
| Gzip (feed : FeedGenerator).

Definition is_empty (b : bytes) : bool :=
  match b with Bytes_empty => true | _ => false end.

Definition get_inner (channel : string) (add_live : bool) (accept_encoding : string)
  : M (rss_data * list (string * string)) :=
  user_json <- fetch_userid (JStr channel) ;;
  (if is_empty user_json then abort 404 else ret tt) ;;;
  user <- lift (json_loads user_json) ;;
  data <- lift (Py.getitem user "data") ;;
  first <- lift (Py.getitem0 data) ;;
  '(channel_display_name, channel_id, icon) <- extract_userid first ;;
  channel_json <- fetch_vods channel_id ;;
  (if is_empty channel_json then abort 404 else ret tt) ;;;
  listing <- lift (json_loads channel_json) ;;
  decoded_json <- lift (Py.getitem listing "data") ;;
  feed <- construct_rss channel decoded_json channel_display_name icon add_live ;;
  if Py.contains "gzip" accept_encoding
  then ret (Gzip feed, [("Content-Type", "text/xml"); ("Content-Encoding", "gzip")])
  else ret (Atom feed, [("Content-Type", "text/xml")]).

Definition vod (channel accept_encoding : string) : M (rss_data * list (string * string)) :=
  if CHANNEL_FILTER channel then get_inner channel true accept_encoding
  else abort 404.

Definition vodonly (channel accept_encoding : string) : M (rss_data * list (string * string)) :=
  if CHANNEL_FILTER channel then get_inner channel false accept_encoding
  else abort 404.

(** The status the client sees: [abort(c)] answers [c], any other exception
    that leaves the view is a 500. *)
Definition status {A : Type} (r : result A) : Z :=
  match r with
  | Ok _ => 200
  | Raise (HTTPException c) => c
  | Raise _ => 500
  end.

(** ** The library functions on small inputs *)

Example replace_placeholders :
  Py.replace (Py.replace "https://x/t_%{width}x%{height}.jpg" "%{width}" "512") "%{height}" "288"
  = "https://x/t_512x288.jpg".
Proof. reflexivity. Qed.

Example quote_page_url :
  Py.quote "https://x/v1" = "https://x/v1" /\ Py.quote "https://x/v 1?" = "https://x/v%201%3F".
Proof. split; reflexivity. Qed.

Example int_of_text :
  Py.int (JStr " +1_000 ") = Ok 1000 /\ Py.int (JStr "1__0") = Raise ValueError
  /\ Py.int (JNum 3600) = Ok 3600 /\ Py.int JNull = Raise TypeError.
Proof. repeat split. Qed.

Example channel_names :
  CHANNEL_FILTER "ab" = true /\ CHANNEL_FILTER "a" = false /\ CHANNEL_FILTER "a-b" = false
  /\ CHANNEL_FILTER "abcdefghijklmnopqrstuvwxy" = true
  /\ CHANNEL_FILTER "abcdefghijklmnopqrstuvwxyz" = false
  /\ CHANNEL_FILTER ("ab" ++ String Py.newline EmptyString) = true.
Proof. repeat split. Qed.

Example str_of_values :
  Py.str (JArr [JNum 1; JStr "a'b"; JNull; JObj [("k", JBool true)]])
  = "[1, " ++ Py.quote_mark ++ "a'b" ++ Py.quote_mark ++ ", None, {'k': True}]".
Proof. reflexivity. Qed.

(** ** The feed of one video *)

(** The record of the end-to-end example, its description left open. *)
Definition video_v1 (description : json) : json :=
  JObj [("id", JStr "v1"); ("title", JStr "Test"); ("url", JStr "https://x/v1");
        ("thumbnail_url", JStr "https://x/t_%{width}x%{height}.jpg");
        ("description", description); ("created_at", JStr "2020-01-01T00:00:00Z")].

Definition anchor_v1 : string :=
  "<a href=" ++ Py.quote_mark ++ "https://x/v1" ++ Py.quote_mark ++ "><img src="
  ++ Py.quote_mark ++ "https://x/t_512x288.jpg" ++ Py.quote_mark ++ " /></a>".

Definition entry_v1 (description : string) : FeedEntry :=
  mk_entry (JStr "Test")
           (Some ("https://audio/v1.m3u8", "audio/mpeg"))
           (Some (JStr "https://x/v1", "related"))
           (Some (anchor_v1 ++ (if String.eqb description EmptyString then EmptyString else "<br/>" ++ description)))
           (Some (Py.mk_datetime 2020 1 1 0 0 0))
           (Some (Py.mk_datetime 2020 1 1 0 0 0))
           (JStr "v1").


(** ** Facts about the cache *)

Section CacheFacts.
Context {V : Type}.
Implicit Types (ls : list (cachetools.link V)) (k : json) (c : TTLCache V).

Lemma key_eqb_refl k : Py.hashable k = true -> Py.key_eqb k k = true.
Proof.
  destruct k as [| b | z | s | |]; cbn; intros H; try discriminate; auto.
  - destruct b; reflexivity.
  - apply Z.eqb_refl.
  - apply String.eqb_refl.
Qed.

Lemma find_key k ls l : find k ls = Some l -> Py.key_eqb (key l) k = true.
Proof.
  induction ls as [|x r IH]; cbn; [discriminate|].
  destruct (Py.key_eqb (key x) k) eqn:E; [|exact IH].
  intros [= <-]. exact E.
Qed.

Lemma find_In k ls l : find k ls = Some l -> In l ls.
Proof.
  induction ls as [|x r IH]; cbn; [discriminate|].
  destruct (Py.key_eqb (key x) k); [intros [= <-]; now left | right; auto].
Qed.

Lemma find_app k ls1 ls2 :
  find k (ls1 ++ ls2) = match find k ls1 with Some l => Some l | None => find k ls2 end.
Proof.
  induction ls1 as [|x r IH]; cbn; [reflexivity|].
  destruct (Py.key_eqb (key x) k); [reflexivity | exact IH].
Qed.

Lemma find_remove k ls : find k (remove k ls) = None.
Proof.
  induction ls as [|x r IH]; cbn; [reflexivity|].
  destruct (Py.key_eqb (key x) k) eqn:E; cbn; [exact IH|].
  rewrite E. exact IH.
Qed.

Lemma find_skipn_none k n ls : find k ls = None -> find k (skipn n ls) = None.
Proof.
  revert ls. induction n as [|n IH]; intros [|x r]; cbn; auto.
  destruct (Py.key_eqb (key x) k); [discriminate | apply IH].
Qed.

Lemma find_moved k ls l : find k ls = Some l -> find k (remove k ls ++ [l]) = Some l.
Proof.
  intros H. rewrite find_app, find_remove. cbn. now rewrite (find_key _ _ H).
Qed.

(** What [cache[k] = v] leaves under [k]. *)
Lemma find_setitem c k v now :
  Py.hashable k = true -> (1 <= maxsize c)%nat ->
  find k (links (setitem c k v now)) = Some (mk_link k v (now + ttl c)).
Proof.
  intros Hk Hm. unfold setitem.
  destruct (Nat.ltb_spec (maxsize c) 1) as [Hlt|_]; [lia|].
  cbn [links with_links]. rewrite find_app.
  assert (Hnone : find k (match find k (expire now (links c)) with
                          | Some _ => remove k (expire now (links c))
                          | None => skipn (S (List.length (expire now (links c))) - maxsize c)
                                          (expire now (links c))
                          end) = None).
  { destruct (find k (expire now (links c))) eqn:E.
    - apply find_remove.
    - now apply find_skipn_none. }
  rewrite Hnone. cbn. now rewrite key_eqb_refl.
Qed.

Lemma remove_length k ls : (List.length (remove k ls) <= List.length ls)%nat.
Proof. apply filter_length_le. Qed.

Lemma remove_found_length k ls l :
  find k ls = Some l -> (S (List.length (remove k ls)) <= List.length ls)%nat.
Proof.
  induction ls as [|x r IH]; cbn; [discriminate|].
  destruct (Py.key_eqb (key x) k) eqn:E; cbn.
  - intros _. pose proof (remove_length k r). unfold remove in H. lia.
  - intros H. specialize (IH H). unfold remove in IH. lia.
Qed.

(** The cache never holds more than [maxsize] links. *)
Lemma setitem_within_maxsize c k v now :
  (List.length (links c) <= maxsize c)%nat ->
  (List.length (links (setitem c k v now)) <= maxsize c)%nat.
Proof.
  intros H. unfold setitem.
  assert (Hlive : (List.length (expire now (links c)) <= List.length (links c))%nat)
    by apply filter_length_le.
  destruct (Nat.ltb_spec (maxsize c) 1) as [Hlt|Hge]; cbn [links with_links maxsize]; [lia|].
  rewrite length_app. cbn [List.length].
  destruct (find k (expire now (links c))) eqn:E.
  - pose proof (remove_found_length _ _ E). lia.
  - rewrite length_skipn. lia.
Qed.

Lemma setitem_maxsize c k v now : maxsize (setitem c k v now) = maxsize c.
Proof. unfold setitem. now destruct (maxsize c <? 1)%nat. Qed.

Lemma setitem_ttl c k v now : ttl (setitem c k v now) = ttl c.
Proof. unfold setitem. now destruct (maxsize c <? 1)%nat. Qed.

Lemma getitem_maxsize c k now : maxsize (snd (getitem c k now)) = maxsize c.
Proof. unfold getitem. destruct (find k (links c)) as [l|]; [destruct (expired now l)|]; reflexivity. Qed.

Lemma getitem_ttl c k now : ttl (snd (getitem c k now)) = ttl c.
Proof. unfold getitem. destruct (find k (links c)) as [l|]; [destruct (expired now l)|]; reflexivity. Qed.

(** A lookup stores nothing: the links are the same, in another order. *)
Lemma getitem_In c k now l : In l (links (snd (getitem c k now))) -> In l (links c).
Proof.
  unfold getitem. destruct (find k (links c)) as [l0|] eqn:E; [|auto].
  assert (H : In l (remove k (links c) ++ [l0]) -> In l (links c)).
  { rewrite in_app_iff. intros [H|[<-|[]]].
    - unfold remove in H. apply filter_In in H. tauto.
    - eapply find_In; eauto. }
  destruct (expired now l0); exact H.
Qed.

Lemma getitem_find c k now :
  find k (links (snd (getitem c k now))) = find k (links c).
Proof.
  unfold getitem. destruct (find k (links c)) as [l0|] eqn:E; [|exact E].
  assert (H : find k (remove k (links c) ++ [l0]) = Some l0) by now apply find_moved.
  destruct (expired now l0); exact H.
Qed.

Lemma getitem_hit c k now l :
  find k (links c) = Some l -> now < expires l ->
  getitem c k now = (Some (value l), with_links c (remove k (links c) ++ [l])).
Proof.
  intros H Hlt. unfold getitem. rewrite H. unfold expired.
  destruct (Z.ltb_spec now (expires l)); [reflexivity | lia].
Qed.

Lemma getitem_some c k now v c' :
  getitem c k now = (Some v, c') ->
  exists l, find k (links c) = Some l /\ value l = v /\ now < expires l
            /\ c' = with_links c (remove k (links c) ++ [l]).
Proof.
  unfold getitem. destruct (find k (links c)) as [l|]; [|discriminate].
  unfold expired. destruct (Z.ltb_spec now (expires l)); cbn; [|discriminate].
  intros [= <- <-]. eauto.
Qed.

Lemma getitem_none c k now c' :
  getitem c k now = (None, c') ->
  forall l, find k (links c) = Some l -> expires l <= now.
Proof.
  unfold getitem. intros H l E. rewrite E in H. unfold expired in H.
  destruct (Z.ltb_spec now (expires l)); cbn in H; [discriminate | lia].
Qed.

Lemma getitem_stale c k now l :
  find k (links c) = Some l -> expires l <= now ->
  getitem c k now = (None, with_links c (remove k (links c) ++ [l])).
Proof.
  intros H Hle. unfold getitem. rewrite H. unfold expired.
  destruct (Z.ltb_spec now (expires l)); [lia | reflexivity].
Qed.

End CacheFacts.

(** ** What a computation leaves alone *)

Section Preserves.
Variable R : world -> world -> Prop.
Hypothesis R_refl : forall w, R w w.
Hypothesis R_trans : forall w1 w2 w3, R w1 w2 -> R w2 w3 -> R w1 w3.

Definition preserves {A : Type} (m : M A) : Prop :=
  forall w r w', m w = (r, w') -> R w w'.

Lemma preserves_ret {A : Type} (a : A) : preserves (ret a).
Proof. intros w r w' [= _ <-]. apply R_refl. Qed.

Lemma preserves_raise {A : Type} (e : exn) : preserves (@raise A e).
Proof. intros w r w' [= _ <-]. apply R_refl. Qed.

Lemma preserves_lift {A : Type} (x : result A) : preserves (lift x).
Proof. intros w r w' [= _ <-]. apply R_refl. Qed.

Lemma preserves_gets {A : Type} (f : world -> A) : preserves (gets f).
Proof. intros w r w' [= _ <-]. apply R_refl. Qed.

Lemma preserves_bind {A B : Type} (m : M A) (k : A -> M B) :
  preserves m -> (forall a, preserves (k a)) -> preserves (bind m k).
Proof.
  intros Hm Hk w r w'. unfold bind.
  destruct (m w) as [[a|e] w1] eqn:E.
  - intros H. eapply R_trans; [eapply Hm; eauto | eapply Hk; eauto].
  - intros [= _ <-]. eapply Hm; eauto.
Qed.

Lemma preserves_if {A : Type} (b : bool) (m1 m2 : M A) :
  preserves m1 -> preserves m2 -> preserves (if b then m1 else m2).
Proof. now destruct b. Qed.

Lemma preserves_authorize_attempts n (attempt : M unit) :
  preserves attempt -> preserves (authorize_attempts n attempt).
Proof.
  intros Ha. induction n as [|n IH]; cbn [authorize_attempts].
  - apply preserves_raise.
  - intros w r w'. destruct (attempt w) as [[u|e] w1] eqn:E.
    + intros [= _ <-]. eapply Ha; eauto.
    + intros H. eapply R_trans; [eapply Ha; eauto | eapply IH; eauto].
Qed.

Lemma preserves_fetch_attempts n (request : request) :
  preserves (urlopen request) -> preserves (fetch_attempts n request).
Proof.
  intros Ha. induction n as [|n IH]; cbn [fetch_attempts].
  - apply preserves_raise.
  - intros w r w'. destruct (urlopen request w) as [[u|e] w1] eqn:E.
    + intros [= _ <-]. eapply Ha; eauto.
    + intros H. eapply R_trans; [eapply Ha; eauto | eapply IH; eauto].
Qed.

(** Whatever the network calls and the two globals' updates preserve,
    [authorize] and [fetch_json] preserve. *)
Hypothesis R_urlopen : forall request, preserves (urlopen request).
Hypothesis R_set_token : forall t w, R w (set_token t w).
Hypothesis R_set_expire_epoch : forall e w, R w (set_expire_epoch e w).

Lemma preserves_authorize_try request : preserves (authorize_try request).
Proof.
  unfold authorize_try, round_time.
  repeat first
    [ apply preserves_bind; [|intros ?]
    | apply R_urlopen | apply preserves_lift | apply preserves_gets ].
  all: intros w r w' [= _ <-]; auto.
Qed.

Lemma preserves_authorize : preserves authorize.
Proof.
  unfold authorize, round_time.
  repeat first
    [ apply preserves_authorize_attempts | apply preserves_authorize_try
    | apply preserves_gets | apply preserves_ret
    | apply preserves_if
    | apply preserves_bind; [|intros ?] ].
Qed.

Lemma preserves_fetch_json id url_template : preserves (fetch_json id url_template).
Proof.
  unfold fetch_json.
  repeat first
    [ apply preserves_authorize | apply preserves_gets
    | apply preserves_bind; [|intros ?] ].
  match goal with |- preserves (match ?t with _ => _ end) => destruct t end;
    first [ apply preserves_raise | apply preserves_fetch_attempts, R_urlopen ].
Qed.

End Preserves.

(** ** The decorator *)

Section Cached.
Context {V : Type}.
Variable get : world -> TTLCache V.
Variable set : TTLCache V -> world -> world.
Variable func : json -> M V.
Hypothesis get_set : forall c w, get (set c w) = c.
Hypothesis clock_set : forall c w, clock (set c w) = clock w.
Hypothesis func_frame : forall a w r w', func a w = (r, w') -> get w' = get w.

Lemma find_unhashable k (ls : list (cachetools.link V)) :
  Py.hashable k = false -> find k ls = None.
Proof.
  intros Hk. induction ls as [|x r IH]; cbn; [reflexivity|].
  assert (E : Py.key_eqb (key x) k = false)
    by (destruct k; try discriminate; destruct (key x); reflexivity).
  now rewrite E.
Qed.

(** A live link is served and the function is not called. *)
Lemma cached_hit k w l :
  find k (links (get w)) = Some l -> clock w < expires l ->
  cached get set func k w
  = (Ok (value l), set (with_links (get w) (remove k (links (get w)) ++ [l])) w).
Proof.
  intros Hf Hlt. unfold cached.
  destruct (Py.hashable k) eqn:Hk.
  - cbn. now rewrite (getitem_hit _ _ Hf Hlt).
  - rewrite find_unhashable in Hf by exact Hk. discriminate.
Qed.

(** Without a live link the function is called, and its value stored. *)
Lemma cached_miss k w :
  Py.hashable k = true ->
  (forall l, find k (links (get w)) = Some l -> expires l <= clock w) ->
  cached get set func k w
  = match func k (set (snd (getitem (get w) k (clock w))) w) with
    | (Ok v, w') => (Ok v, set (setitem (get w') k v (clock w')) w')
    | (Raise e, w') => (Raise e, w')
    end.
Proof.
  intros Hk Hstale. unfold cached. rewrite Hk. cbn.
  destruct (getitem (get w) k (clock w)) as [[v|] c] eqn:E; [|reflexivity].
  apply getitem_some in E. destruct E as (l & Hf & _ & Hlt & _).
  specialize (Hstale _ Hf). lia.
Qed.

(** After a call that returned, the value sits under the key and is live. *)
Lemma cached_ok k w v w1 :
  (1 <= maxsize (get w))%nat -> 0 < ttl (get w) ->
  cached get set func k w = (Ok v, w1) ->
  exists l, find k (links (get w1)) = Some l /\ value l = v /\ clock w1 < expires l
            /\ (fst (getitem (get w) k (clock w)) = None ->
                expires l = clock w1 + ttl (get w)).
Proof.
  intros Hm Ht. unfold cached.
  destruct (Py.hashable k) eqn:Hk; cbn; [|discriminate].
  destruct (getitem (get w) k (clock w)) as [[v0|] c] eqn:E.
  - intros [= <- <-]. apply getitem_some in E.
    destruct E as (l & Hf & Hv & Hlt & ->).
    exists l. rewrite get_set, clock_set. cbn [links with_links].
    repeat split; auto using find_moved. discriminate.
  - destruct (func k (set c w)) as [[v1|e] w'] eqn:F; [|discriminate].
    intros [= <- <-].
    assert (Hc : get w' = c) by (rewrite (func_frame F); apply get_set).
    assert (Hmax : maxsize c = maxsize (get w))
      by (pose proof (getitem_maxsize (get w) k (clock w)) as H; now rewrite E in H).
    assert (Httl : ttl c = ttl (get w))
      by (pose proof (getitem_ttl (get w) k (clock w)) as H; now rewrite E in H).
    exists (mk_link k v1 (clock w' + ttl c)).
    rewrite get_set, clock_set, Hc. cbn [value expires].
    repeat split.
    + apply find_setitem; [exact Hk | lia].
    + lia.
    + intros _. now rewrite Httl.
Qed.

(** An exception of the function stores nothing. *)
Lemma cached_raise k w e w1 :
  cached get set func k w = (Raise e, w1) ->
  (forall l, In l (links (get w1)) -> In l (links (get w)))
  /\ find k (links (get w1)) = find k (links (get w))
  /\ (forall l, find k (links (get w1)) = Some l -> expires l <= clock w).
Proof.
  unfold cached. destruct (Py.hashable k) eqn:Hk; cbn.
  - destruct (getitem (get w) k (clock w)) as [[v0|] c] eqn:E; [discriminate|].
    destruct (func k (set c w)) as [[v1|e'] w'] eqn:F; [discriminate|].
    intros [= _ <-].
    assert (Hc : get w' = snd (getitem (get w) k (clock w)))
      by (rewrite (func_frame F), E; apply get_set).
    rewrite Hc. repeat split.
    + intros l. apply getitem_In.
    + apply getitem_find.
    + intros l. rewrite getitem_find. eapply getitem_none; eauto.
  - intros [= _ <-]. repeat split; auto.
    intros l. rewrite find_unhashable by exact Hk. discriminate.
Qed.

End Cached.

(** ** Network calls and caches of the fetchers *)

Definition keeps_caches (w w' : world) : Prop :=
  audiostream_cache w' = audiostream_cache w
  /\ userid_cache w' = userid_cache w
  /\ vods_cache w' = vods_cache w.

Definition extends_requests (w w' : world) : Prop :=
  exists more, requests w' = (requests w ++ more)%list.

Definition keeps_commands (w w' : world) : Prop :=
  commands w' = commands w /\ streamlink w' = streamlink w.

Lemma urlopen_world request w r w' :
  urlopen request w = (r, w') ->
  requests w' = (requests w ++ [request])%list
  /\ keeps_caches w w' /\ keeps_commands w w'
  /\ TWITCH_OAUTH_TOKEN w' = TWITCH_OAUTH_TOKEN w
  /\ TWITCH_OAUTH_EXPIRE_EPOCH w' = TWITCH_OAUTH_EXPIRE_EPOCH w
  /\ TWITCH_CLIENT_ID w' = TWITCH_CLIENT_ID w /\ TWITCH_SECRET w' = TWITCH_SECRET w
  /\ clock w <= clock w'.
Proof.
  unfold urlopen, keeps_caches, keeps_commands.
  destruct (upstream w) as [|[dt resp] rest]; intros [= _ <-]; cbn; repeat split; lia.
Qed.

Lemma fetch_json_keeps_caches id url_template :
  preserves keeps_caches (fetch_json id url_template).
Proof.
  apply preserves_fetch_json; unfold keeps_caches.
  - tauto.
  - intros w1 w2 w3 (A1 & A2 & A3) (B1 & B2 & B3). repeat split; congruence.
  - intros request w r w' H. apply urlopen_world in H. unfold keeps_caches in H. tauto.
  - intros; cbn; tauto.
  - intros; cbn; tauto.
Qed.

Lemma extends_requests_refl w : extends_requests w w.
Proof. exists []. now rewrite app_nil_r. Qed.

Lemma extends_requests_trans w1 w2 w3 :
  extends_requests w1 w2 -> extends_requests w2 w3 -> extends_requests w1 w3.
Proof. intros [m1 H1] [m2 H2]. exists (m1 ++ m2)%list. now rewrite H2, H1, app_assoc. Qed.

Lemma urlopen_extends request : preserves extends_requests (urlopen request).
Proof. intros w r w' H. apply urlopen_world in H. exists [request]. tauto. Qed.

Lemma authorize_extends : preserves extends_requests authorize.
Proof.
  apply preserves_authorize.
  - exact extends_requests_refl.
  - exact extends_requests_trans.
  - exact urlopen_extends.
  - intros; exists []; cbn; now rewrite app_nil_r.
  - intros; exists []; cbn; now rewrite app_nil_r.
Qed.

(** The first attempt is made, whatever follows. *)
Lemma fetch_attempts_calls n request w r w' :
  fetch_attempts (S n) request w = (r, w') ->
  exists more, requests w' = (requests w ++ request :: more)%list.
Proof.
  cbn [fetch_attempts]. destruct (urlopen request w) as [[b|e] w1] eqn:E.
  - intros [= _ <-]. apply urlopen_world in E. exists []. tauto.
  - intros H. apply urlopen_world in E. destruct E as (E & _).
    assert (X : extends_requests w1 w').
    { eapply preserves_fetch_attempts;
        [exact extends_requests_refl | exact extends_requests_trans
        | apply urlopen_extends | exact H]. }
    destruct X as [more X]. exists more. rewrite X, E, <- app_assoc. reflexivity.
Qed.

Lemma authorize_try_calls request w r w' :
  authorize_try request w = (r, w') ->
  exists more, requests w' = (requests w ++ request :: more)%list.
Proof.
  unfold authorize_try, bind, lift, modify, round_time, gets.
  destruct (urlopen request w) as [[b|e] w1] eqn:E;
    apply urlopen_world in E; destruct E as (E & _); exists [].
  - revert H.
    repeat match goal with
           | |- context [match ?x with Ok _ => _ | Raise _ => _ end] => destruct x
           end;
      intros [= _ <-]; cbn; exact E.
  - injection H as _ <-. exact E.
Qed.

Lemma authorize_attempts_calls n request w r w' :
  authorize_attempts (S n) (authorize_try request) w = (r, w') ->
  exists more, requests w' = (requests w ++ request :: more)%list.
Proof.
  cbn [authorize_attempts].
  destruct (authorize_try request w) as [[u|e] w1] eqn:E.
  - intros [= _ <-]. eapply authorize_try_calls; eauto.
  - intros H. apply authorize_try_calls in E. destruct E as [m1 E].
    assert (X : extends_requests w1 w').
    { eapply preserves_authorize_attempts;
        [exact extends_requests_refl | exact extends_requests_trans | | exact H].
      intros w2 r2 w3 H2. apply authorize_try_calls in H2.
      destruct H2 as [m2 H2]. now exists (request :: m2). }
    destruct X as [m2 X]. exists (m1 ++ m2)%list.
    rewrite X, E, <- !app_assoc. reflexivity.
Qed.

(** [authorize] and [fetch_json], unfolded once. *)
Lemma authorize_eq w :
  authorize w
  = if TWITCH_OAUTH_EXPIRE_EPOCH w >=? clock w then (Ok tt, w)
    else authorize_attempts 3
           (authorize_try (Post_token (TWITCH_CLIENT_ID w) (TWITCH_SECRET w))) w.
Proof.
  unfold authorize, bind, round_time, gets, ret. cbv beta iota.
  now destruct (TWITCH_OAUTH_EXPIRE_EPOCH w >=? clock w).
Qed.

Lemma fetch_json_eq id url_template w :
  fetch_json id url_template w
  = match authorize w with
    | (Ok _, w1) =>
        match TWITCH_OAUTH_TOKEN w1 with
        | JStr bearer => fetch_attempts 3 (Get url_template id bearer (TWITCH_CLIENT_ID w1)) w1
        | _ => (Raise TypeError, w1)
        end
    | (Raise e, w1) => (Raise e, w1)
    end.
Proof.
  unfold fetch_json. unfold bind at 1.
  destruct (authorize w) as [[u|e] w1]; [|reflexivity].
  unfold bind, gets. cbv beta iota. now destruct (TWITCH_OAUTH_TOKEN w1).
Qed.

(** With a token that is text, [fetch_json] reaches the network. *)
Lemma fetch_json_calls id url_template w r w' :
  (exists s, TWITCH_OAUTH_TOKEN w = JStr s) ->
  fetch_json id url_template w = (r, w') ->
  exists request more, requests w' = (requests w ++ request :: more)%list.
Proof.
  intros [s Hs]. rewrite fetch_json_eq, authorize_eq.
  destruct (TWITCH_OAUTH_EXPIRE_EPOCH w >=? clock w).
  - rewrite Hs. intros H. apply fetch_attempts_calls in H.
    destruct H as [more H]. eauto.
  - destruct (authorize_attempts 3 _ w) as [[u|e] w1] eqn:E;
      apply authorize_attempts_calls in E; destruct E as [m1 E].
    + intros H.
      assert (X : extends_requests w1 w').
      { destruct (TWITCH_OAUTH_TOKEN w1);
          try (injection H as _ <-; apply extends_requests_refl).
        eapply preserves_fetch_attempts;
          [exact extends_requests_refl | exact extends_requests_trans
          | apply urlopen_extends | exact H]. }
      destruct X as [m2 X].
      exists (Post_token (TWITCH_CLIENT_ID w) (TWITCH_SECRET w)), (m1 ++ m2)%list.
      rewrite X, E, <- !app_assoc. reflexivity.
    + intros [= _ <-]. eauto.
Qed.

(** ** The two caches in front of the API *)

Inductive lookup_cache : Type := IdentityCache | ListingCache.

Definition CachedLookup (c : lookup_cache) : json -> M bytes :=
  match c with
  | IdentityCache => fetch_userid
  | ListingCache => fetch_vods
  end.

Definition cache_of (c : lookup_cache) : world -> TTLCache bytes :=
  match c with
  | IdentityCache => userid_cache
  | ListingCache => vods_cache
  end.

(** The caches are the ones the decorators made. *)
Definition configured (w : world) : Prop :=
  (maxsize (audiostream_cache w) = 3000%nat /\ ttl (audiostream_cache w) = USERIDCACHE_LIFETIME)
  /\ (maxsize (userid_cache w) = 3000%nat /\ ttl (userid_cache w) = USERIDCACHE_LIFETIME)
  /\ (maxsize (vods_cache w) = 500%nat /\ ttl (vods_cache w) = VODCACHE_LIFETIME).

Lemma configured_start now client_id secret net procs :
  configured (start now client_id secret net procs).
Proof. repeat split. Qed.

Section Lookup.
Variable get : world -> TTLCache bytes.
Variable set : TTLCache bytes -> world -> world.
Variable url_template : string.
Hypothesis get_set : forall c w, get (set c w) = c.
Hypothesis clock_set : forall c w, clock (set c w) = clock w.
Hypothesis requests_set : forall c w, requests (set c w) = requests w.
Hypothesis upstream_set : forall c w, upstream (set c w) = upstream w.
Hypothesis token_set : forall c w, TWITCH_OAUTH_TOKEN (set c w) = TWITCH_OAUTH_TOKEN w.
Hypothesis fetch_frame :
  forall a w r w', fetch_json a url_template w = (r, w') -> get w' = get w.

Let lookup : json -> M bytes :=
  cached get set (fun k => fetch_json k url_template).

Lemma lookup_again key l w2 :
  find key (links (get w2)) = Some l -> clock w2 < expires l ->
  exists w3, lookup key w2 = (Ok (value l), w3)
             /\ requests w3 = requests w2 /\ upstream w3 = upstream w2.
Proof.
  intros Hf Hlt. unfold lookup.
  rewrite (cached_hit get set _ _ w2 Hf Hlt).
  eexists; split; [reflexivity|]. now rewrite requests_set, upstream_set.
Qed.

Lemma lookup_after_expiry key l w2 :
  find key (links (get w2)) = Some l -> expires l <= clock w2 ->
  (exists s, TWITCH_OAUTH_TOKEN w2 = JStr s) ->
  exists request more,
    requests (snd (lookup key w2)) = (requests w2 ++ request :: more)%list.
Proof.
  intros Hf Hle Htok. unfold lookup.
  assert (Hk : Py.hashable key = true).
  { destruct (Py.hashable key) eqn:Hk; [reflexivity|].
    rewrite find_unhashable in Hf by exact Hk. discriminate. }
  rewrite cached_miss; [|exact Hk|].
  2:{ intros l' Hl'. rewrite Hf in Hl'. injection Hl' as <-. exact Hle. }
  destruct (fetch_json key url_template _) as [r w'] eqn:F.
  apply fetch_json_calls in F; [|now rewrite token_set].
  destruct F as (request & more & F). rewrite requests_set in F.
  exists request, more. destruct r; cbn; [rewrite requests_set|]; exact F.
Qed.

Lemma lookup_ok key v w w1 :
  (1 <= maxsize (get w))%nat -> 0 < ttl (get w) ->
  lookup key w = (Ok v, w1) ->
  exists l, find key (links (get w1)) = Some l /\ value l = v /\ clock w1 < expires l
            /\ (fst (getitem (get w) key (clock w)) = None ->
                expires l = clock w1 + ttl (get w)).
Proof. intros Hm Ht. apply cached_ok; auto. Qed.

End Lookup.

Lemma fetch_json_userid_cache a url_template w r w' :
  fetch_json a url_template w = (r, w') -> userid_cache w' = userid_cache w.
Proof. intros H. apply fetch_json_keeps_caches in H. apply H. Qed.

Lemma fetch_json_vods_cache a url_template w r w' :
  fetch_json a url_template w = (r, w') -> vods_cache w' = vods_cache w.
Proof. intros H. apply fetch_json_keeps_caches in H. apply H. Qed.

(** A lookup that returned leaves a live link; the link is served while it
    is there and live, and a lookup past its expiry goes upstream. *)
Lemma CachedLookup_served (c : lookup_cache) (key : json) (v : bytes) (w w1 : world) :
  configured w ->
  CachedLookup c key w = (Ok v, w1) ->
  exists l,
    find key (links (cache_of c w1)) = Some l /\ value l = v /\ clock w1 < expires l
    /\ (fst (getitem (cache_of c w) key (clock w)) = None ->
        expires l = clock w1 + ttl (cache_of c w))
    /\ (forall w2,
          find key (links (cache_of c w2)) = Some l -> clock w2 < expires l ->
          exists w3, CachedLookup c key w2 = (Ok v, w3)
                     /\ requests w3 = requests w2 /\ upstream w3 = upstream w2)
    /\ (forall w2,
          find key (links (cache_of c w2)) = Some l -> expires l <= clock w2 ->
          (exists s, TWITCH_OAUTH_TOKEN w2 = JStr s) ->
          exists request more,
            requests (snd (CachedLookup c key w2)) = (requests w2 ++ request :: more)%list).
Proof.
  intros ((_ & _) & (Hum & Hut) & (Hvm & Hvt)) H.
  destruct c; cbn [CachedLookup cache_of] in *.
  - destruct (@lookup_ok userid_cache set_userid_cache USERID_URL_TEMPLATE
                (fun _ _ => eq_refl) (fun _ _ => eq_refl)
                (fun a => @fetch_json_userid_cache a USERID_URL_TEMPLATE) key v w w1)
      as (l & Hf & Hv & Hlt & Hexp); [lia | rewrite Hut; reflexivity | exact H |].
    exists l. repeat split; auto.
    + intros w2 Hf2 Hlt2. rewrite <- Hv.
      apply (@lookup_again userid_cache set_userid_cache USERID_URL_TEMPLATE);
        try (intros; reflexivity); assumption.
    + intros w2 Hf2 Hle2 Htok.
      apply (@lookup_after_expiry userid_cache set_userid_cache USERID_URL_TEMPLATE) with (l := l);
        try (intros; reflexivity); try assumption;
        intros a; apply fetch_json_userid_cache.
  - destruct (@lookup_ok vods_cache set_vods_cache VOD_URL_TEMPLATE
                (fun _ _ => eq_refl) (fun _ _ => eq_refl)
                (fun a => @fetch_json_vods_cache a VOD_URL_TEMPLATE) key v w w1)
      as (l & Hf & Hv & Hlt & Hexp); [lia | rewrite Hvt; reflexivity | exact H |].
    exists l. repeat split; auto.
    + intros w2 Hf2 Hlt2. rewrite <- Hv.
      apply (@lookup_again vods_cache set_vods_cache VOD_URL_TEMPLATE);
        try (intros; reflexivity); assumption.
    + intros w2 Hf2 Hle2 Htok.
      apply (@lookup_after_expiry vods_cache set_vods_cache VOD_URL_TEMPLATE) with (l := l);
        try (intros; reflexivity); try assumption;
        intros a; apply fetch_json_vods_cache.
Qed.


(** ** The credential *)

Ltac split_steps :=
  repeat match goal with
         | |- context [match ?x with Ok _ => _ | Raise _ => _ end] => destruct x eqn:?
         end.

(** A failed attempt leaves the expiry alone. *)
Lemma authorize_try_raise request w e w' :
  authorize_try request w = (Raise e, w') ->
  TWITCH_OAUTH_EXPIRE_EPOCH w' = TWITCH_OAUTH_EXPIRE_EPOCH w.
Proof.
  unfold authorize_try, bind, lift, modify, round_time, gets.
  destruct (urlopen request w) as [[b|e0] w1] eqn:E;
    apply urlopen_world in E; destruct E as (_ & _ & _ & _ & E & _).
  - split_steps; intros [= _ <-]; cbn; exact E.
  - intros [= _ <-]. exact E.
Qed.

Lemma authorize_attempts_raise n request w e w' :
  authorize_attempts n (authorize_try request) w = (Raise e, w') ->
  e = HTTPException 503 /\ TWITCH_OAUTH_EXPIRE_EPOCH w' = TWITCH_OAUTH_EXPIRE_EPOCH w.
Proof.
  revert w. induction n as [|n IH]; intros w; cbn [authorize_attempts].
  - intros [= <- <-]. auto.
  - destruct (authorize_try request w) as [[u|e0] w1] eqn:E; [discriminate|].
    intros H. apply IH in H. apply authorize_try_raise in E.
    destruct H as [-> H]. split; congruence.
Qed.

(** When the refresh gives up, the answer is 503 and the credential has the
    expiry it had: it is still expired. *)
Lemma authorize_raise w e w' :
  authorize w = (Raise e, w') ->
  e = HTTPException 503
  /\ TWITCH_OAUTH_EXPIRE_EPOCH w' = TWITCH_OAUTH_EXPIRE_EPOCH w
  /\ TWITCH_OAUTH_EXPIRE_EPOCH w < clock w.
Proof.
  rewrite authorize_eq.
  destruct (Z.geb_spec (TWITCH_OAUTH_EXPIRE_EPOCH w) (clock w)) as [Hge|Hlt]; [discriminate|].
  intros H. apply authorize_attempts_raise in H. tauto.
Qed.






(** A token answer that lacks [expires_in]. *)
Definition token_only (t : string) : response :=
  Response (Bytes_json (JObj [("access_token", JStr t)])).

Definition token_answer (t : string) (expires_in : Z) : response :=
  Response (Bytes_json (JObj [("access_token", JStr t); ("expires_in", JNum expires_in)])).




(** *** A refresh that fails half-way *)

(** The token has run out; three times the endpoint answers with a token
    and no [expires_in]. *)
Definition half_answers : world :=
  set_token (JStr "old")
    (start 5000 "id" "secret"
       [(0%N, token_only "new"); (0%N, token_only "new"); (0%N, token_only "new")] []).

(** C6, at the failing input: the refresh gives up with 503 and the expiry
    is what it was, but the stored token is no longer the one from before
    the call. *)
Theorem C6_token_overwritten :
  fst (authorize half_answers) = Raise (HTTPException 503)
  /\ TWITCH_OAUTH_EXPIRE_EPOCH (snd (authorize half_answers))
     = TWITCH_OAUTH_EXPIRE_EPOCH half_answers
  /\ TWITCH_OAUTH_TOKEN half_answers = JStr "old"
  /\ TWITCH_OAUTH_TOKEN (snd (authorize half_answers)) = JStr "new".
Proof. repeat split. Qed.

(** ** The channel filter *)

Lemma span_split p s :
  exists pre, s = pre ++ snd (Py.span p s)
              /\ String.length pre = fst (Py.span p s)
              /\ Py.str_all p pre = true.
Proof.
  induction s as [|c s IH]; cbn.
  - exists EmptyString. auto.
  - destruct (p c) eqn:E.
    + destruct IH as (pre & H1 & H2 & H3).
      destruct (Py.span p s) as [n r]. cbn in *.
      exists (String c pre). cbn. repeat split; [congruence | congruence | rewrite E; exact H3].
    + exists EmptyString. auto.
Qed.

Lemma span_append p name rest :
  Py.str_all p name = true ->
  match rest with EmptyString => True | String c _ => p c = false end ->
  Py.span p (name ++ rest) = (String.length name, rest).
Proof.
  intros Hall Hrest. induction name as [|c name IH]; cbn in *.
  - destruct rest as [|c r]; [reflexivity|]. cbn. now rewrite Hrest.
  - apply andb_prop in Hall. destruct Hall as [Hc Hall].
    rewrite Hc, (IH Hall). reflexivity.
Qed.

(** What [CHANNEL_FILTER.match] lets through: two to twenty-five letters,
    digits or underscores, and after them nothing or one newline. *)
Lemma CHANNEL_FILTER_spec s :
  CHANNEL_FILTER s = true <->
  exists name,
    (s = name \/ s = name ++ String Py.newline EmptyString)
    /\ (2 <= String.length name <= 25)%nat
    /\ Py.str_all Py.word_char name = true.
Proof.
  unfold CHANNEL_FILTER, Py.match_channel. split.
  - destruct (span_split Py.word_char s) as (pre & H1 & H2 & H3).
    destruct (Py.span Py.word_char s) as [n rest]. cbn [fst snd] in *.
    intros H. apply andb_prop in H. destruct H as [H Hd].
    apply andb_prop in H. destruct H as [Hlo Hhi].
    apply Nat.leb_le in Hlo, Hhi.
    exists pre. split; [|split; [lia | exact H3]].
    destruct rest as [|c [|c' r]]; cbn in Hd; try discriminate.
    + left. rewrite H1. clear. induction pre; cbn; congruence.
    + right. apply Ascii.eqb_eq in Hd. now subst c.
  - intros (name & Hs & Hlen & Hall).
    assert (E : exists rest, s = name ++ rest /\ Py.at_dollar rest = true
                            /\ match rest with EmptyString => True
                                          | String c _ => Py.word_char c = false end).
    { destruct Hs as [-> | ->].
      - exists EmptyString. repeat split. clear. induction name; cbn; congruence.
      - exists (String Py.newline EmptyString). repeat split. }
    destruct E as (rest & -> & Hd & Hr).
    rewrite (span_append _ _ _ Hall Hr), Hd.
    destruct Hlen as [Hlo Hhi]. apply Nat.leb_le in Hlo, Hhi. now rewrite Hlo, Hhi.
Qed.


(** ** Feeds *)



(** ** Requests that end in 404 *)

Definition user_record (id name icon : json) : json :=
  JObj [("id", id); ("display_name", name); ("profile_image_url", icon)].

Definition data_of (records : list json) : bytes :=
  Bytes_json (JObj [("data", JArr records)]).

(** A channel that exists and has no videos. *)
Definition no_videos : world :=
  start 5000 "id" "secret"
        [(0%N, token_answer "token" 3600);
         (0%N, Response (data_of [user_record (JStr "42") (JStr "Foo") (JStr "https://x/icon.png")]));
         (0%N, Response (data_of []))]
        [].





(** A channel nobody has: the identity answer has no record, and the view
    leaves with an [IndexError]. *)
Definition unknown_channel : world :=
  start 5000 "id" "secret" [(0%N, token_answer "token" 3600); (0%N, Response (data_of []))] [].

Example unknown_channel_is_500 :
  fst (vod "nobody" EmptyString unknown_channel) = Raise IndexError
  /\ status (fst (vod "nobody" EmptyString unknown_channel)) = 500.
Proof. split; vm_compute; reflexivity. Qed.

(** ** Exceptions and the caches *)

Lemma run_world command w r w' :
  run command w = (r, w') ->
  commands w' = (commands w ++ [command])%list
  /\ keeps_caches w w' /\ requests w' = requests w /\ clock w <= clock w'.
Proof.
  unfold run, keeps_caches.
  destruct (streamlink w) as [|[dt p] rest]; intros [= _ <-]; cbn; repeat split; lia.
Qed.

Definition streamlink_command (vod_url : string) : list string :=
  ["streamlink"; Py.quote vod_url; "audio"; "--stream-url"].

Lemma get_audiostream_url_inner_eq u w :
  get_audiostream_url_inner (JStr u) w
  = match run (streamlink_command u) w with
    | (Ok p, w') =>
        if negb (returncode p =? 0)
        then (Raise (Exception (streamlink_error (stdout p))), w')
        else (Ok (Py.rstrip_newline (stdout p)), w')
    | (Raise e, w') => (Raise e, w')
    end.
Proof.
  unfold get_audiostream_url_inner, bind, streamlink_command.
  destruct (run _ w) as [[p|e] w']; [|reflexivity].
  now destruct (negb (returncode p =? 0)).
Qed.

Lemma get_audiostream_url_inner_cache a w r w' :
  get_audiostream_url_inner a w = (r, w') -> audiostream_cache w' = audiostream_cache w.
Proof.
  destruct a; try (intros [= _ <-]; reflexivity).
  rewrite get_audiostream_url_inner_eq.
  destruct (run _ w) as [[p|e] w1] eqn:E; apply run_world in E;
    destruct E as (_ & (E & _) & _).
  - destruct (negb (returncode p =? 0)); intros [= _ <-]; exact E.
  - intros [= _ <-]. exact E.
Qed.

(** What a call that raised has stored: nothing.  Every link was there
    before, and the key has no live link. *)
Definition stored_nothing {V : Type} (cache : world -> TTLCache V) (k : json)
    (w w1 : world) : Prop :=
  (forall l, In l (links (cache w1)) -> In l (links (cache w)))
  /\ find k (links (cache w1)) = find k (links (cache w))
  /\ (forall l, find k (links (cache w1)) = Some l -> expires l <= clock w).

Lemma get_audiostream_url_raise k w e w1 :
  get_audiostream_url k w = (Raise e, w1) -> stored_nothing audiostream_cache k w w1.
Proof.
  apply (@cached_raise string audiostream_cache set_audiostream_cache);
    try (intros; reflexivity).
  apply get_audiostream_url_inner_cache.
Qed.

Lemma fetch_userid_raise k w e w1 :
  fetch_userid k w = (Raise e, w1) -> stored_nothing userid_cache k w w1.
Proof.
  apply (@cached_raise bytes userid_cache set_userid_cache); try (intros; reflexivity).
  intros a. apply fetch_json_userid_cache.
Qed.

Lemma fetch_vods_raise k w e w1 :
  fetch_vods k w = (Raise e, w1) -> stored_nothing vods_cache k w w1.
Proof.
  apply (@cached_raise bytes vods_cache set_vods_cache); try (intros; reflexivity).
  intros a. apply fetch_json_vods_cache.
Qed.

(** Without a live link for the URL, [streamlink] is run. *)
Lemma get_audiostream_url_runs u w :
  (forall l, find (JStr u) (links (audiostream_cache w)) = Some l -> expires l <= clock w) ->
  commands (snd (get_audiostream_url (JStr u) w))
  = (commands w ++ [streamlink_command u])%list.
Proof.
  intros Hstale. unfold get_audiostream_url.
  rewrite (@cached_miss string audiostream_cache set_audiostream_cache); auto.
  rewrite get_audiostream_url_inner_eq.
  destruct (run _ _) as [[p|e] w'] eqn:E; apply run_world in E; destruct E as (E & _).
  - destruct (negb (returncode p =? 0)); exact E.
  - exact E.
Qed.

(** A run of [streamlink] that ends with a return code other than 0. *)
Lemma get_audiostream_url_failed u w dt p rest :
  (forall l, find (JStr u) (links (audiostream_cache w)) = Some l -> expires l <= clock w) ->
  streamlink w = (dt, p) :: rest ->
  returncode p <> 0 ->
  exists w1,
    get_audiostream_url (JStr u) w = (Raise (Exception (streamlink_error (stdout p))), w1)
    /\ clock w <= clock w1
    /\ commands w1 = (commands w ++ [streamlink_command u])%list.
Proof.
  intros Hstale Hs Hrc. unfold get_audiostream_url.
  rewrite (@cached_miss string audiostream_cache set_audiostream_cache); auto.
  rewrite get_audiostream_url_inner_eq. unfold run. cbn [streamlink set_audiostream_cache].
  rewrite Hs.
  destruct (Z.eqb_spec (returncode p) 0) as [|_]; [contradiction|]. cbn [negb].
  eexists. split; [reflexivity|]. cbn. split; [lia | reflexivity].
Qed.

(** The identity endpoint answers with an empty body; a good answer would
    come next. *)
Definition empty_identity : world :=
  start 5000 "id" "secret"
        [(0%N, token_answer "token" 3600);
         (0%N, Response Bytes_empty);
         (0%N, Response (data_of [user_record (JStr "42") (JStr "Foo") (JStr "https://x/icon.png")]))]
        [].

(** C7, as the claim has it, fails for the identity lookup: the empty body
    that makes the request a 404 is stored, and the same request a minute
    later is a 404 again without anything asked upstream, although a good
    answer was waiting there. *)
Lemma C7_counterexample :
  let w1 := snd (vod "foo" EmptyString empty_identity) in
  let w2 := snd (vod "foo" EmptyString (set_clock 5060 w1)) in
  status (fst (vod "foo" EmptyString empty_identity)) = 404
  /\ option_map (@value bytes) (find (JStr "foo") (links (userid_cache w1))) = Some Bytes_empty
  /\ status (fst (vod "foo" EmptyString (set_clock 5060 w1))) = 404
  /\ requests w2 = requests w1
  /\ upstream w2 = upstream w1
  /\ upstream w1 <> [].
Proof. cbv zeta. repeat split; try (vm_compute; reflexivity). vm_compute. discriminate. Qed.

(** C7, amended.  An exception that leaves a decorated function is never
    stored: after it the cache has no link it had not before, and no live
    link for the key.  So a 503 of the fetchers is not cached, and a run of
    the resolver that ended with a return code other than 0 raises, is not
    cached, and the next call for the same URL runs the resolver again.
    What a fetcher returns is stored, the empty body included: the 404 that
    [get_inner] makes of it is served from the cache while the link lives. *)
Theorem C7_exceptions_are_not_cached (w : world) :
  (forall k e w1,
     get_audiostream_url k w = (Raise e, w1) -> stored_nothing audiostream_cache k w w1)
  /\ (forall k e w1, fetch_userid k w = (Raise e, w1) -> stored_nothing userid_cache k w w1)
  /\ (forall k e w1, fetch_vods k w = (Raise e, w1) -> stored_nothing vods_cache k w w1)
  /\ (forall u dt p rest,
        (forall l, find (JStr u) (links (audiostream_cache w)) = Some l ->
                   expires l <= clock w) ->
        streamlink w = (dt, p) :: rest ->
        returncode p <> 0 ->
        exists w1,
          get_audiostream_url (JStr u) w
          = (Raise (Exception (streamlink_error (stdout p))), w1)
          /\ stored_nothing audiostream_cache (JStr u) w w1
          /\ forall t, clock w1 <= t ->
               commands (snd (get_audiostream_url (JStr u) (set_clock t w1)))
               = (commands w1 ++ [streamlink_command u])%list)
  /\ (forall c key w1,
        configured w ->
        CachedLookup c key w = (Ok Bytes_empty, w1) ->
        exists l,
          find key (links (cache_of c w1)) = Some l /\ value l = Bytes_empty
          /\ forall w2,
               find key (links (cache_of c w2)) = Some l -> clock w2 < expires l ->
               exists w3, CachedLookup c key w2 = (Ok Bytes_empty, w3)
                          /\ requests w3 = requests w2 /\ upstream w3 = upstream w2).
Proof.
  split; [|split; [|split; [|split]]].
  - intros k e w1. apply get_audiostream_url_raise.
  - intros k e w1. apply fetch_userid_raise.
  - intros k e w1. apply fetch_vods_raise.
  - intros u dt p rest Hstale Hs Hrc.
    destruct (get_audiostream_url_failed u w Hstale Hs Hrc) as (w1 & Hr & Hclock & Hcmd).
    exists w1. split; [exact Hr|].
    pose proof (get_audiostream_url_raise _ _ Hr) as Hn. split; [exact Hn|].
    intros t Ht. rewrite get_audiostream_url_runs; [reflexivity|].
    intros l Hl. destruct Hn as (_ & _ & Hn). specialize (Hn l Hl). cbn. lia.
  - intros c key w1 Hc H.
    destruct (CachedLookup_served c key Hc H) as (l & Hf & Hv & _ & _ & Hagain & _).
    exists l. auto.
Qed.

(** ** One turn of the loop, step by step *)

(** The description of an entry. *)
Definition description_of (link : json) (thumbnail_url : string) (d : json) : result string :=
  if Py.truthy d
  then match d with
       | JStr s => Ok (thumbnail_html link thumbnail_url ++ "<br/>" ++ s)
       | _ => Raise TypeError
       end
  else Ok (thumbnail_html link thumbnail_url).

(** The feed with one more entry, all setters called. *)
Definition with_entry (feed : FeedGenerator) (e : FeedEntry) : FeedGenerator :=
  mk_feed (feed_image feed) (feed_id feed) (feed_title feed) (feed_link feed)
          (feed_author feed) (feed_description feed) (e :: feed_entries feed).

Lemma add_vod_eq feed vod w :
  add_vod feed vod w
  = match Py.getitem vod "url" with
    | Raise e => (Raise e, w)
    | Ok link =>
    match Py.getitem vod "title" with
    | Raise e => (Raise e, w)
    | Ok t =>
    match get_audiostream_url link w with
    | (Raise e, w1) => (Raise e, w1)
    | (Ok audio, w1) =>
    match Py.getitem vod "thumbnail_url" with
    | Raise e => (Raise e, w1)
    | Ok (JStr thumbnail_url) =>
        match Py.getitem vod "description" with
        | Raise e => (Raise e, w1)
        | Ok d =>
        match description_of link thumbnail_url d with
        | Raise e => (Raise e, w1)
        | Ok description =>
        match Py.getitem vod "created_at" with
        | Raise e => (Raise e, w1)
        | Ok (JStr created_at) =>
            match Py.strptime created_at with
            | None => (Raise ValueError, w1)
            | Some date =>
                match Py.getitem vod "id" with
                | Raise e => (Raise e, w1)
                | Ok guid =>
                    (Ok (with_entry feed
                           (mk_entry t (Some (audio, "audio/mpeg")) (Some (link, "related"))
                                     (Some description) (Some date) (Some date) guid)),
                     w1)
                end
            end
        | Ok _ => (Raise TypeError, w1)
        end end end
    | Ok _ => (Raise AttributeError, w1)
    end end end end.
Proof.
  unfold add_vod, bind, lift, ret, raise, description_of.
  destruct (Py.getitem vod "url") as [link|]; [|reflexivity].
  destruct (Py.getitem vod "title") as [t|]; [|reflexivity].
  destruct (get_audiostream_url link w) as [[audio|] w1]; [|reflexivity].
  destruct (Py.getitem vod "thumbnail_url") as [[| | |th| |]|]; try reflexivity.
  destruct (Py.getitem vod "description") as [d|]; [|reflexivity].
  destruct (Py.truthy d); [destruct d|]; cbv beta iota; try reflexivity.
  all: destruct (Py.getitem vod "created_at") as [[| | |c| |]|]; try reflexivity.
  all: destruct (Py.strptime c); try reflexivity.
  all: destruct (Py.getitem vod "id"); reflexivity.
Qed.

(** ** Records with a field missing *)

Definition required_fields : list string :=
  ["id"; "title"; "url"; "thumbnail_url"; "description"; "created_at"].

Definition has_field (kv : list (string * json)) (k : string) : bool :=
  match Py.dict_get kv k with Some _ => true | None => false end.

Definition complete (kv : list (string * json)) : bool :=
  forallb (has_field kv) required_fields.

Lemma add_vod_ok_complete feed kv w feed' w' :
  add_vod feed (JObj kv) w = (Ok feed', w') -> complete kv = true.
Proof.
  rewrite add_vod_eq. unfold complete, required_fields, has_field. cbn [Py.getitem forallb].
  destruct (Py.dict_get kv "url"); [|discriminate].
  destruct (Py.dict_get kv "title"); [|discriminate].
  destruct (get_audiostream_url _ w) as [[audio|] w1]; [|discriminate].
  destruct (Py.dict_get kv "thumbnail_url") as [[| | |th| |]|]; try discriminate.
  destruct (Py.dict_get kv "description") as [d|]; [|discriminate].
  destruct (description_of _ th d); [|discriminate].
  destruct (Py.dict_get kv "created_at") as [[| | |c| |]|]; try discriminate.
  destruct (Py.strptime c); [|discriminate].
  destruct (Py.dict_get kv "id"); [reflexivity | discriminate].
Qed.

Lemma add_vods_app feed pre post w :
  add_vods feed (pre ++ post) w
  = match add_vods feed pre w with
    | (Ok feed1, w1) => add_vods feed1 post w1
    | (Raise e, w1) => (Raise e, w1)
    end.
Proof.
  revert feed w. induction pre as [|x pre IH]; intros feed w; cbn [app add_vods].
  - reflexivity.
  - unfold bind. destruct (add_vod feed x w) as [[f|e] w1]; [apply IH | reflexivity].
Qed.

Lemma add_vods_incomplete feed pre kv post w :
  complete kv = false ->
  exists e w', add_vods feed (pre ++ JObj kv :: post) w = (Raise e, w').
Proof.
  intros Hc. rewrite add_vods_app.
  destruct (add_vods feed pre w) as [[feed1|e] w1]; [|eauto].
  cbn [add_vods]. unfold bind.
  destruct (add_vod feed1 (JObj kv) w1) as [[feed2|e] w2] eqn:E; [|eauto].
  apply add_vod_ok_complete in E. congruence.
Qed.

Lemma construct_rss_eq channel records name icon add_live w :
  records <> [] ->
  construct_rss channel (JArr records) name icon add_live w
  = match add_vods (new_feed name icon) records w with
    | (Raise KeyError, w') => (Raise (HTTPException 404), w')
    | other => other
    end.
Proof.
  intros Hne. unfold construct_rss. destruct records as [|x r]; [contradiction|].
  reflexivity.
Qed.

(** The other fields of the record are in order: the audio of its page
    resolves, the thumbnail is text, the description is text or empty, the
    date can be read. *)
Definition otherwise_in_order (kv : list (string * json)) (w : world) : Prop :=
  (forall link, Py.dict_get kv "url" = Some link ->
                exists audio w', get_audiostream_url link w = (Ok audio, w'))
  /\ (forall v, Py.dict_get kv "thumbnail_url" = Some v -> exists s, v = JStr s)
  /\ (forall v, Py.dict_get kv "description" = Some v -> Py.truthy v = true ->
                exists s, v = JStr s)
  /\ (forall v, Py.dict_get kv "created_at" = Some v ->
                exists s date, v = JStr s /\ Py.strptime s = Some date).

Lemma add_vod_missing_field feed kv w :
  complete kv = false -> otherwise_in_order kv w ->
  exists w', add_vod feed (JObj kv) w = (Raise KeyError, w').
Proof.
  intros Hc (Haudio & Hthumb & Hdesc & Hdate). rewrite add_vod_eq.
  unfold complete, required_fields, has_field in Hc. cbn [Py.getitem forallb] in *.
  destruct (Py.dict_get kv "url") as [link|]; [|eauto].
  destruct (Py.dict_get kv "title"); [|eauto].
  destruct (Haudio link eq_refl) as (audio & w1 & ->).
  destruct (Py.dict_get kv "thumbnail_url") as [th|]; [|eauto].
  destruct (Hthumb th eq_refl) as (s & ->).
  destruct (Py.dict_get kv "description") as [d|]; [|eauto].
  assert (exists text, description_of link s d = Ok text) as (text & ->).
  { unfold description_of. destruct (Py.truthy d) eqn:Ht; [|eauto].
    destruct (Hdesc d eq_refl Ht) as (ds & ->). eauto. }
  destruct (Py.dict_get kv "created_at") as [c|]; [|eauto].
  destruct (Hdate c eq_refl) as (cs & date & -> & ->).
  destruct (Py.dict_get kv "id"); [discriminate | eauto].
Qed.

(** A record as the API sends it. *)
Definition video (id title url thumbnail_url description created_at : string) : json :=
  JObj [("id", JStr id); ("title", JStr title); ("url", JStr url);
        ("thumbnail_url", JStr thumbnail_url); ("description", JStr description);
        ("created_at", JStr created_at)].

(** [streamlink] answers once, with the URL of the audio. *)
Definition resolving : world :=
  start 5000 "id" "secret" []
        [(0%N, mk_completed 0 ("https://audio/v1.m3u8" ++ String Py.newline EmptyString))].

(** The first record has every field, its date with a fraction of a second;
    the second has no title. *)
Definition fraction_then_untitled : json :=
  JArr [video "v1" "Test" "https://x/v1" "https://x/t.jpg" "d" "2020-01-01T00:00:00.5Z";
        JObj [("id", JStr "v2"); ("url", JStr "https://x/v2");
              ("thumbnail_url", JStr "https://x/t.jpg"); ("description", JStr "d");
              ("created_at", JStr "2020-01-02T00:00:00Z")]].

(** C8, as the claim has it, fails when something else goes wrong before
    the missing field is looked up: here the second record lacks its title,
    and the build ends with the [ValueError] of the first record's date,
    which is not the handler's [abort(404)]. *)
Lemma C8_counterexample :
  fst (construct_rss "foo" fraction_then_untitled (JStr "Foo") JNull true resolving)
  = Raise ValueError
  /\ status (fst (construct_rss "foo" fraction_then_untitled (JStr "Foo") JNull true resolving))
     = 500.
Proof. split; vm_compute; reflexivity. Qed.

(** C8, amended.  When a record lacks one of the six fields, no feed is
    built, wherever the record stands in the listing: the build ends with an
    exception.  The exception is the handler's [abort(404)] when the records
    before it were added and the other fields of the record are in order;
    an exception met before the missing field is looked up takes its
    place. *)
Theorem C8_missing_field_aborts (channel : string) (name icon : json) (add_live : bool)
    (pre post : list json) (kv : list (string * json)) (w : world) :
  complete kv = false ->
  (exists e w',
     construct_rss channel (JArr (pre ++ JObj kv :: post)) name icon add_live w
     = (Raise e, w'))
  /\ (forall feed1 w1,
        add_vods (new_feed name icon) pre w = (Ok feed1, w1) ->
        otherwise_in_order kv w1 ->
        exists w2,
          construct_rss channel (JArr (pre ++ JObj kv :: post)) name icon add_live w
          = (Raise (HTTPException 404), w2)).
Proof.
  intros Hc.
  assert (Hne : (pre ++ JObj kv :: post)%list <> []) by (destruct pre; discriminate).
  rewrite (@construct_rss_eq channel _ name icon add_live w Hne). split.
  - destruct (@add_vods_incomplete (new_feed name icon) pre kv post w Hc) as (e & w' & ->).
    destruct e; eauto.
  - intros feed1 w1 Hpre Hin. rewrite add_vods_app, Hpre. cbn [add_vods]. unfold bind.
    destruct (@add_vod_missing_field feed1 kv w1 Hc Hin) as (w2 & ->). eauto.
Qed.

(** ** The dates that [strptime] reads *)


















(** A date in the plain form, and one with short fields and small letters,
    are read; a fraction of a second, an offset and a day that the month does
    not have are refused. *)
Example strptime_examples :
  Py.strptime "2020-01-01T00:00:00Z" = Some (Py.mk_datetime 2020 1 1 0 0 0)
  /\ Py.strptime "2020-1-1t0:0:9z" = Some (Py.mk_datetime 2020 1 1 0 0 9)
  /\ Py.strptime "2020-01-01T00:00:00.5Z" = None
  /\ Py.strptime "2020-01-01T00:00:00+00:00" = None
  /\ Py.strptime "2020-01-01 00:00:00" = None
  /\ Py.strptime "2021-02-29T00:00:00Z" = None.
Proof. repeat split. Qed.

(** ** Dates that cannot be read *)





(** ** The theorems at work *)








(** [streamlink] fails once and would then answer. *)
Definition failing_resolver : world :=
  start 5000 "id" "secret" []
        [(1%N, mk_completed 1 "error: No playable streams found");
         (1%N, mk_completed 0 ("https://audio/v1.m3u8" ++ String Py.newline EmptyString))].

Lemma C7_witness :
  streamlink failing_resolver
  = [(1%N, mk_completed 1 "error: No playable streams found");
     (1%N, mk_completed 0 ("https://audio/v1.m3u8" ++ String Py.newline EmptyString))]
  /\ exists w1,
       get_audiostream_url (JStr "https://x/v1") failing_resolver
       = (Raise (Exception (streamlink_error "error: No playable streams found")), w1)
       /\ links (audiostream_cache w1) = []
       /\ commands (snd (get_audiostream_url (JStr "https://x/v1") (set_clock 5060 w1)))
          = (commands w1 ++ [streamlink_command "https://x/v1"])%list.
Proof.
  split; [reflexivity|].
  destruct (C7_exceptions_are_not_cached failing_resolver) as (_ & _ & _ & Hfail & _).
  destruct (Hfail "https://x/v1" 1%N (mk_completed 1 "error: No playable streams found")
              [(1%N, mk_completed 0 ("https://audio/v1.m3u8" ++ String Py.newline EmptyString))])
    as (w1 & Hr & (Hin & _) & Hnext).
  - intros l Hl. discriminate Hl.
  - reflexivity.
  - cbn. discriminate.
  - exists w1. split; [exact Hr|]. split.
    + destruct (links (audiostream_cache w1)) as [|x r]; [reflexivity|].
      destruct (Hin x (or_introl eq_refl)).
    + apply Hnext. assert (E : clock w1 = 5001).
      { assert (E0 : snd (get_audiostream_url (JStr "https://x/v1") failing_resolver) = w1)
          by (rewrite Hr; reflexivity).
        rewrite <- E0. vm_compute. reflexivity. }
      rewrite E. lia.
Defined.

(** [streamlink] answers every time it is asked, twice. *)
Definition resolving_twice : world :=
  start 5000 "id" "secret" []
        [(0%N, mk_completed 0 ("https://audio/v1.m3u8" ++ String Py.newline EmptyString));
         (0%N, mk_completed 0 ("https://audio/v2.m3u8" ++ String Py.newline EmptyString))].

Definition without_id : list (string * json) :=
  [("title", JStr "Second"); ("url", JStr "https://x/v2");
   ("thumbnail_url", JStr "https://x/t.jpg"); ("description", JStr EmptyString);
   ("created_at", JStr "2020-01-02T00:00:00Z")].

Lemma C8_witness :
  complete without_id = false
  /\ exists w2,
       construct_rss "foo"
         (JArr ([video "v1" "Test" "https://x/v1" "https://x/t.jpg" "d" "2020-01-01T00:00:00Z"]
                ++ JObj without_id :: [video_v1 JNull]))
         (JStr "Foo") JNull true resolving_twice
       = (Raise (HTTPException 404), w2).
Proof.
  assert (H : complete without_id = false) by reflexivity.
  split; [exact H|].
  destruct (@C8_missing_field_aborts "foo" (JStr "Foo") JNull true
              [video "v1" "Test" "https://x/v1" "https://x/t.jpg" "d" "2020-01-01T00:00:00Z"]
              [video_v1 JNull] without_id resolving_twice H) as (_ & H404).
  eapply H404.
  - vm_compute. reflexivity.
  - repeat split.
    + intros link [= <-]. eexists. eexists. vm_compute. reflexivity.
    + intros v [= <-]. eauto.
    + intros v [= <-]. discriminate.
    + intros v [= <-]. eexists. eexists. split; reflexivity.
Defined.


(** ** The caches keep their size and lifetime *)

Definition same_config (w w' : world) : Prop :=
  (maxsize (audiostream_cache w') = maxsize (audiostream_cache w)
   /\ ttl (audiostream_cache w') = ttl (audiostream_cache w))
  /\ (maxsize (userid_cache w') = maxsize (userid_cache w)
      /\ ttl (userid_cache w') = ttl (userid_cache w))
  /\ (maxsize (vods_cache w') = maxsize (vods_cache w)
      /\ ttl (vods_cache w') = ttl (vods_cache w)).

Lemma same_config_refl w : same_config w w.
Proof. repeat split. Qed.

Lemma same_config_trans w1 w2 w3 : same_config w1 w2 -> same_config w2 w3 -> same_config w1 w3.
Proof. unfold same_config. intuition congruence. Qed.

Lemma keeps_caches_config w w' : keeps_caches w w' -> same_config w w'.
Proof. intros (H1 & H2 & H3). unfold same_config. rewrite H1, H2, H3. repeat split. Qed.

Ltac preserve :=
  repeat first
    [ apply (@preserves_ret same_config same_config_refl)
    | apply (@preserves_raise same_config same_config_refl)
    | apply (@preserves_lift same_config same_config_refl)
    | apply (@preserves_gets same_config same_config_refl)
    | assumption
    | apply (@preserves_bind same_config same_config_trans); [|intros ?]
    | match goal with
      | |- preserves _ (if ?b then _ else _) => destruct b
      | |- preserves _ (match ?x with _ => _ end) => destruct x
      end ].

Lemma fetch_json_config id url_template : preserves same_config (fetch_json id url_template).
Proof.
  intros w r w' H. apply keeps_caches_config. eapply fetch_json_keeps_caches; eauto.
Qed.

Lemma get_audiostream_url_inner_config a : preserves same_config (get_audiostream_url_inner a).
Proof.
  unfold get_audiostream_url_inner. destruct a; preserve.
  intros w r w' H. apply run_world in H. apply keeps_caches_config. tauto.
Qed.

Section CachedConfig.
Context {V : Type}.
Variable get : world -> TTLCache V.
Variable set : TTLCache V -> world -> world.
Variable func : json -> M V.
Hypothesis set_config :
  forall c w, maxsize c = maxsize (get w) -> ttl c = ttl (get w) -> same_config w (set c w).
Hypothesis func_config : forall k, preserves same_config (func k).

Lemma cached_config k : preserves same_config (cached get set func k).
Proof.
  unfold cached. destruct (negb (Py.hashable k)); [preserve|].
  intros w r w'.
  pose proof (getitem_maxsize (get w) k (clock w)) as Hm.
  pose proof (getitem_ttl (get w) k (clock w)) as Ht.
  destruct (getitem (get w) k (clock w)) as [[v|] c]; cbn [snd] in Hm, Ht.
  - intros [= _ <-]. now apply set_config.
  - assert (H1 : same_config w (set c w)) by now apply set_config.
    destruct (func k (set c w)) as [[v|e] w1] eqn:F; apply func_config in F.
    + intros [= _ <-]. eapply same_config_trans; [exact H1|].
      eapply same_config_trans; [exact F|].
      apply set_config; [apply setitem_maxsize | apply setitem_ttl].
    + intros [= _ <-]. eapply same_config_trans; eauto.
Qed.

End CachedConfig.

Lemma get_audiostream_url_config k : preserves same_config (get_audiostream_url k).
Proof.
  apply cached_config.
  - intros c w Hm Ht. unfold same_config. cbn. tauto.
  - apply get_audiostream_url_inner_config.
Qed.

Lemma fetch_userid_config k : preserves same_config (fetch_userid k).
Proof.
  apply cached_config.
  - intros c w Hm Ht. unfold same_config. cbn. tauto.
  - intros a. apply fetch_json_config.
Qed.

Lemma fetch_vods_config k : preserves same_config (fetch_vods k).
Proof.
  apply cached_config.
  - intros c w Hm Ht. unfold same_config. cbn. tauto.
  - intros a. apply fetch_json_config.
Qed.

Lemma add_vod_config feed vod : preserves same_config (add_vod feed vod).
Proof.
  unfold add_vod. pose proof get_audiostream_url_config as H.
  repeat first
    [ apply H
    | apply (@preserves_ret same_config same_config_refl)
    | apply (@preserves_raise same_config same_config_refl)
    | apply (@preserves_lift same_config same_config_refl)
    | apply (@preserves_bind same_config same_config_trans); [|intros ?]
    | match goal with
      | |- preserves _ (if ?b then _ else _) => destruct b
      | |- preserves _ (match ?x with _ => _ end) => destruct x
      end ].
Qed.

Lemma add_vods_config vods : forall feed, preserves same_config (add_vods feed vods).
Proof.
  induction vods as [|x r IH]; intros feed; cbn [add_vods].
  - preserve.
  - apply (@preserves_bind same_config same_config_trans); [apply add_vod_config | exact IH].
Qed.

Lemma construct_rss_config channel vods name icon add_live :
  preserves same_config (construct_rss channel vods name icon add_live).
Proof.
  intros w r w'. unfold construct_rss.
  set (m := if Py.truthy vods then _ else _).
  assert (Hm : preserves same_config m).
  { subst m. destruct (Py.truthy vods); [|preserve].
    apply (@preserves_bind same_config same_config_trans); [preserve|].
    intros items. apply add_vods_config. }
  destruct (m w) as [[f|e] w1] eqn:E; apply Hm in E.
  - intros [= _ <-]. exact E.
  - destruct e; intros [= _ <-]; exact E.
Qed.

Lemma get_inner_config channel add_live accept_encoding :
  preserves same_config (get_inner channel add_live accept_encoding).
Proof.
  unfold get_inner, extract_userid.
  pose proof fetch_userid_config as H1. pose proof fetch_vods_config as H2.
  pose proof construct_rss_config as H3.
  repeat first
    [ apply H1 | apply H2 | apply H3
    | apply (@preserves_ret same_config same_config_refl)
    | apply (@preserves_raise same_config same_config_refl)
    | apply (@preserves_lift same_config same_config_refl)
    | apply (@preserves_bind same_config same_config_trans); [|intros ?]
    | match goal with
      | |- preserves _ (let '(_, _) := ?x in _) => destruct x
      | |- preserves _ (if ?b then _ else _) => destruct b
      | |- preserves _ (match ?x with _ => _ end) => destruct x
      end ].
Qed.

(** Whatever a request does, the caches are the ones the decorators made. *)
Lemma configured_vod channel accept_encoding w r w' :
  configured w ->
  vod channel accept_encoding w = (r, w') \/ vodonly channel accept_encoding w = (r, w') ->
  configured w'.
Proof.
  intros Hc H.
  assert (S : same_config w w').
  { unfold vod, vodonly in H. destruct (CHANNEL_FILTER channel).
    - destruct H as [H|H]; eapply get_inner_config; eauto.
    - destruct H as [H|H]; injection H as _ <-; apply same_config_refl. }
  unfold configured, same_config in *. intuition congruence.
Qed.

(** ** What the feed does not depend on *)

(** The channel name and [add_live] are not read: the branch for live
    videos is commented out. *)
Lemma construct_rss_unused_arguments channel channel' add_live add_live' vods name icon w :
  construct_rss channel vods name icon add_live w
  = construct_rss channel' vods name icon add_live' w.
Proof. reflexivity. Qed.

(** ** The retry loop *)

(** Two failures and an answer give the answer; three failures give 503. *)
Lemma fetch_attempts_third request body w d1 d2 d3 rest :
  upstream w = (d1, Failure) :: (d2, Failure) :: (d3, Response body) :: rest ->
  fst (fetch_attempts 3 request w) = Ok body
  /\ requests (snd (fetch_attempts 3 request w)) = (requests w ++ [request; request; request])%list.
Proof.
  intros H. cbn [fetch_attempts]. unfold urlopen. rewrite H. cbn.
  rewrite <- !app_assoc. split; reflexivity.
Qed.

Lemma fetch_attempts_exhausted request w d1 d2 d3 rest :
  upstream w = (d1, Failure) :: (d2, Failure) :: (d3, Failure) :: rest ->
  fst (fetch_attempts 3 request w) = Raise (HTTPException 503)
  /\ upstream (snd (fetch_attempts 3 request w)) = rest.
Proof.
  intros H. cbn [fetch_attempts]. unfold urlopen. rewrite H. cbn. split; reflexivity.
Qed.

(** ** A request from end to end *)

(** The channel ["foo"] with the one video of the example; [streamlink]
    resolves its page. *)
Definition one_video : world :=
  start 5000 "id" "secret"
        [(0%N, token_answer "token" 3600);
         (0%N, Response (data_of [user_record (JStr "42") (JStr "Foo") (JStr "https://x/icon.png")]));
         (0%N, Response (data_of [video_v1 (JStr "d")]))]
        [(0%N, mk_completed 0 ("https://audio/v1.m3u8" ++ String Py.newline EmptyString))].

Example vod_one_video :
  exists feed,
    fst (vod "foo" EmptyString one_video) = Ok (Atom feed, [("Content-Type", "text/xml")])
    /\ feed_entries feed = [entry_v1 "d"]
    /\ feed_title feed = "Foo's Twitch video RSS"
    /\ requests (snd (vod "foo" EmptyString one_video))
       = [Post_token "id" "secret";
          Get USERID_URL_TEMPLATE (JStr "foo") "token" "id";
          Get VOD_URL_TEMPLATE (JStr "42") "token" "id"]
    /\ commands (snd (vod "foo" EmptyString one_video)) = [streamlink_command "https://x/v1"].
Proof.
  eexists. split; [vm_compute; reflexivity|].
  repeat split; vm_compute; reflexivity.
Qed.

(** The same request five minutes later is answered from the caches. *)
Example vod_again :
  let w1 := snd (vod "foo" EmptyString one_video) in
  let again := vod "foo" "gzip" (set_clock 5300 w1) in
  (exists feed headers, fst again = Ok (Gzip feed, headers) /\ feed_entries feed = [entry_v1 "d"])
  /\ requests (snd again) = requests w1
  /\ commands (snd again) = commands w1.
Proof.
  cbv zeta. split; [|split; vm_compute; reflexivity].
  eexists. eexists. split; [vm_compute; reflexivity|]. vm_compute. reflexivity.
Qed.

(** ** The network layer: what it changes and how often it calls *)

(** What [authorize] and [fetch_json] leave alone: the caches, the
    subprocesses, the client's identifier and secret; and the clock does not
    go back. *)
Definition net_frame (w w' : world) : Prop :=
  keeps_caches w w' /\ keeps_commands w w'
  /\ TWITCH_CLIENT_ID w' = TWITCH_CLIENT_ID w /\ TWITCH_SECRET w' = TWITCH_SECRET w
  /\ clock w <= clock w'.

Lemma net_frame_refl w : net_frame w w.
Proof. unfold net_frame, keeps_caches, keeps_commands. repeat split. lia. Qed.

Lemma net_frame_trans w1 w2 w3 : net_frame w1 w2 -> net_frame w2 w3 -> net_frame w1 w3.
Proof.
  unfold net_frame, keeps_caches, keeps_commands.
  intros ((A1 & A2 & A3) & (A4 & A5) & A6 & A7 & A8) ((B1 & B2 & B3) & (B4 & B5) & B6 & B7 & B8).
  repeat split; try congruence. lia.
Qed.

Lemma urlopen_net_frame request : preserves net_frame (urlopen request).
Proof.
  intros w r w' H. apply urlopen_world in H. unfold net_frame. tauto.
Qed.

Lemma fetch_json_net_frame id url_template : preserves net_frame (fetch_json id url_template).
Proof.
  apply preserves_fetch_json.
  - exact net_frame_refl.
  - exact net_frame_trans.
  - exact urlopen_net_frame.
  - intros t w. unfold net_frame, keeps_caches, keeps_commands. cbn. repeat split. lia.
  - intros e w. unfold net_frame, keeps_caches, keeps_commands. cbn. repeat split. lia.
Qed.

Lemma authorize_net_frame : preserves net_frame authorize.
Proof.
  apply preserves_authorize.
  - exact net_frame_refl.
  - exact net_frame_trans.
  - exact urlopen_net_frame.
  - intros t w. unfold net_frame, keeps_caches, keeps_commands. cbn. repeat split. lia.
  - intros e w. unfold net_frame, keeps_caches, keeps_commands. cbn. repeat split. lia.
Qed.

(** One attempt of the refresh is one call. *)
Lemma authorize_try_one_call request w r w' :
  authorize_try request w = (r, w') ->
  requests w' = (requests w ++ [request])%list.
Proof.
  unfold authorize_try, bind, lift, modify, round_time, gets.
  destruct (urlopen request w) as [[b|e] w1] eqn:E;
    apply urlopen_world in E; destruct E as (E & _).
  - split_steps; intros [= _ <-]; cbn; exact E.
  - intros [= _ <-]. exact E.
Qed.

Lemma repeat_snoc {A : Type} (x : A) n : (repeat x n ++ [x])%list = x :: repeat x n.
Proof. induction n as [|n IH]; cbn; [reflexivity | now rewrite IH]. Qed.

Lemma authorize_attempts_count n request w r w' :
  authorize_attempts n (authorize_try request) w = (r, w') ->
  exists k, (k <= n)%nat
            /\ requests w' = (requests w ++ repeat request k)%list
            /\ (forall e, r = Raise e -> e = HTTPException 503 /\ k = n)
            /\ (r = Ok tt -> (1 <= k)%nat).
Proof.
  revert w. induction n as [|n IH]; intros w; cbn [authorize_attempts].
  - intros [= <- <-]. exists 0%nat. cbn. rewrite app_nil_r.
    split; [lia|]. split; [reflexivity|]. split; [intros e [= <-]; auto | discriminate].
  - destruct (authorize_try request w) as [[u|e0] w1] eqn:E;
      apply authorize_try_one_call in E.
    + intros [= <- <-]. exists 1%nat.
      split; [lia|]. split; [exact E|]. split; [discriminate | lia].
    + intros H. apply IH in H. destruct H as (k & Hk & Hr & Hraise & Hok).
      exists (S k). split; [lia|]. split.
      { rewrite Hr, E, <- app_assoc. reflexivity. }
      split; [|lia].
      intros e He1. apply Hraise in He1. destruct He1 as [-> ->]. auto.
Qed.

Lemma fetch_attempts_count n request w r w' :
  fetch_attempts n request w = (r, w') ->
  exists k, (k <= n)%nat
            /\ requests w' = (requests w ++ repeat request k)%list
            /\ (forall e, r = Raise e -> e = HTTPException 503 /\ k = n)
            /\ (forall body, r = Ok body ->
                  (1 <= k)%nat
                  /\ exists dt, nth_error (upstream w) (Nat.pred k) = Some (dt, Response body))
            /\ TWITCH_OAUTH_TOKEN w' = TWITCH_OAUTH_TOKEN w
            /\ TWITCH_OAUTH_EXPIRE_EPOCH w' = TWITCH_OAUTH_EXPIRE_EPOCH w.
Proof.
  revert w. induction n as [|n IH]; intros w; cbn [fetch_attempts].
  - intros [= <- <-]. exists 0%nat. cbn. rewrite app_nil_r.
    split; [lia|]. split; [reflexivity|]. split; [intros e [= <-]; auto|].
    split; [discriminate|]. split; reflexivity.
  - destruct (urlopen request w) as [[b|e0] w1] eqn:E.
    + intros [= <- <-]. pose proof (urlopen_world _ _ E) as (Hr & _ & _ & Ht & He & _).
      exists 1%nat. split; [lia|]. split; [exact Hr|]. split; [discriminate|].
      split; [|split; assumption].
      intros body' [= <-]. split; [lia|]. unfold urlopen in E.
      destruct (upstream w) as [|[dt [|b']] rest]; try discriminate.
      injection E as <- _. cbn. eauto.
    + intros H. pose proof (urlopen_world _ _ E) as (Hr & _ & _ & Ht & He & _).
      assert (Hup : upstream w1 = tl (upstream w)).
      { unfold urlopen in E. destruct (upstream w) as [|[dt resp] rest];
          injection E as _ <-; reflexivity. }
      apply IH in H. destruct H as (k & Hk & Hreq & Hraise & Hok & Ht' & He').
      exists (S k). split; [lia|]. split.
      { rewrite Hreq, Hr, <- app_assoc. reflexivity. }
      split.
      { intros e He1. apply Hraise in He1. destruct He1 as [-> ->]. auto. }
      split; [|split; congruence].
      intros body' Hb. split; [lia|]. destruct (Hok body' Hb) as (Hk1 & dt & Hn).
      exists dt. rewrite Hup in Hn. destruct k as [|k]; [lia|]. cbn in *.
      destruct (upstream w) as [|x rest]; [destruct k; discriminate | exact Hn].
Qed.







(** X3.  [fetch_json] never touches a cache and never starts a subprocess.
    It makes at most three posts to the token endpoint followed by at most
    three calls of the API, each carrying the token that is stored when it
    is done and the client's identifier; a body comes from at least one such
    call, and the only exceptions are [abort(503)] and the [TypeError] of a
    token that is not text. *)
Theorem X3_fetch_json_calls (id : json) (url_template : string)
    (w : world) (r : result bytes) (w' : world) :
  fetch_json id url_template w = (r, w') ->
  net_frame w w'
  /\ exists np ng bearer,
       (np <= 3)%nat /\ (ng <= 3)%nat
       /\ requests w'
          = (requests w
             ++ repeat (Post_token (TWITCH_CLIENT_ID w) (TWITCH_SECRET w)) np
             ++ repeat (Get url_template id bearer (TWITCH_CLIENT_ID w)) ng)%list
       /\ ((1 <= ng)%nat -> TWITCH_OAUTH_TOKEN w' = JStr bearer)
       /\ match r with
          | Ok _ => (1 <= ng)%nat
          | Raise e => e = HTTPException 503 \/ e = TypeError
          end.
Proof.
  intros H. split; [eapply fetch_json_net_frame; eauto|].
  rewrite fetch_json_eq in H.
  destruct (authorize w) as [[u|e] w1] eqn:A.
  - pose proof A as F. apply authorize_net_frame in F. destruct F as (_ & _ & Hid & _).
    assert (Hposts : exists np, (np <= 3)%nat
              /\ requests w1 = (requests w ++ repeat (Post_token (TWITCH_CLIENT_ID w)
                                                       (TWITCH_SECRET w)) np)%list).
    { rewrite authorize_eq in A.
      destruct (TWITCH_OAUTH_EXPIRE_EPOCH w >=? clock w).
      - injection A as _ <-. exists 0%nat. cbn. rewrite app_nil_r. auto.
      - apply authorize_attempts_count in A. destruct A as (k & Hk & Hr & _). eauto. }
    destruct Hposts as (np & Hnp & Hreq1).
    destruct (TWITCH_OAUTH_TOKEN w1) as [| | |bearer| |] eqn:T;
      try (injection H as <- <-; exists np, 0%nat, EmptyString; cbn; rewrite app_nil_r;
           repeat split; try lia; auto).
    apply fetch_attempts_count in H.
    destruct H as (k & Hk & Hreq & Hraise & Hok & Ht & _).
    exists np, k, bearer. split; [lia|]. split; [lia|]. split.
    { rewrite Hreq, Hreq1, Hid, <- app_assoc. reflexivity. }
    split; [intros _; congruence|].
    destruct r as [body|e].
    + apply (Hok body eq_refl).
    + left. apply (Hraise e eq_refl).
  - injection H as <- <-. rewrite authorize_eq in A.
    destruct (TWITCH_OAUTH_EXPIRE_EPOCH w >=? clock w); [discriminate|].
    apply authorize_attempts_count in A. destruct A as (k & Hk & Hr & Hraise & _).
    destruct (Hraise e eq_refl) as (-> & ->).
    exists 3%nat, 0%nat, EmptyString. rewrite app_nil_r.
    repeat split; try lia; auto.
Qed.

Definition flaky_api : world :=
  start 5000 "id" "secret"
        [(1%N, token_answer "token" 3600); (3%N, Failure);
         (1%N, Response (data_of [user_record (JStr "42") (JStr "Foo") JNull]))]
        [].

Lemma X3_witness :
  fetch_json (JStr "foo") USERID_URL_TEMPLATE flaky_api
  = (Ok (data_of [user_record (JStr "42") (JStr "Foo") JNull]),
     snd (fetch_json (JStr "foo") USERID_URL_TEMPLATE flaky_api))
  /\ net_frame flaky_api (snd (fetch_json (JStr "foo") USERID_URL_TEMPLATE flaky_api))
  /\ requests (snd (fetch_json (JStr "foo") USERID_URL_TEMPLATE flaky_api))
     = [Post_token "id" "secret";
        Get USERID_URL_TEMPLATE (JStr "foo") "token" "id";
        Get USERID_URL_TEMPLATE (JStr "foo") "token" "id"].
Proof.
  assert (H : fetch_json (JStr "foo") USERID_URL_TEMPLATE flaky_api
              = (Ok (data_of [user_record (JStr "42") (JStr "Foo") JNull]),
                 snd (fetch_json (JStr "foo") USERID_URL_TEMPLATE flaky_api)))
    by (vm_compute; reflexivity).
  split; [exact H|].
  destruct (@X3_fetch_json_calls _ _ _ _ _ H) as (Hf & _).
  split; [exact Hf|]. vm_compute. reflexivity.
Defined.

(** X4.  [CHANNEL_FILTER] lets a name through exactly when it is two to
    twenty-five letters, digits or underscores, followed by nothing or by
    one newline. *)
Theorem X4_channel_filter_names (s : string) :
  CHANNEL_FILTER s = true <->
  exists name,
    (s = name \/ s = name ++ String Py.newline EmptyString)
    /\ (2 <= String.length name <= 25)%nat
    /\ Py.str_all Py.word_char name = true.
Proof. apply CHANNEL_FILTER_spec. Qed.

(** ** Relations that every handler keeps *)

Section Handlers.
Variable R : world -> world -> Prop.
Hypothesis R_refl : forall w, R w w.
Hypothesis R_trans : forall w1 w2 w3, R w1 w2 -> R w2 w3 -> R w1 w3.
Hypothesis R_audio : forall k, preserves R (get_audiostream_url k).

Ltac keep :=
  repeat first
    [ apply R_audio
    | assumption
    | apply (@preserves_ret R R_refl)
    | apply (@preserves_raise R R_refl)
    | apply (@preserves_lift R R_refl)
    | apply (@preserves_gets R R_refl)
    | apply (@preserves_bind R R_trans); [|intros ?]
    | match goal with
      | |- preserves _ (let '(_, _) := ?x in _) => destruct x
      | |- preserves _ (if ?b then _ else _) => destruct b
      | |- preserves _ (match ?x with _ => _ end) => destruct x
      end ].

Lemma keeps_add_vod feed vod : preserves R (add_vod feed vod).
Proof. unfold add_vod. keep. Qed.

Lemma keeps_add_vods vods : forall feed, preserves R (add_vods feed vods).
Proof.
  induction vods as [|x r IH]; intros feed; cbn [add_vods].
  - keep.
  - apply (@preserves_bind R R_trans); [apply keeps_add_vod | exact IH].
Qed.

Lemma keeps_construct_rss channel vods name icon add_live :
  preserves R (construct_rss channel vods name icon add_live).
Proof.
  intros w r w'. unfold construct_rss.
  set (m := if Py.truthy vods then _ else _).
  assert (Hm : preserves R m).
  { subst m. destruct (Py.truthy vods); [|keep].
    apply (@preserves_bind R R_trans); [keep|].
    intros items. apply keeps_add_vods. }
  destruct (m w) as [[f|e] w1] eqn:E; apply Hm in E.
  - intros [= _ <-]. exact E.
  - destruct e; intros [= _ <-]; exact E.
Qed.

Hypothesis R_userid : forall k, preserves R (fetch_userid k).
Hypothesis R_vods : forall k, preserves R (fetch_vods k).

Lemma keeps_get_inner channel add_live accept_encoding :
  preserves R (get_inner channel add_live accept_encoding).
Proof.
  unfold get_inner, extract_userid.
  pose proof keeps_construct_rss as H3.
  repeat first
    [ apply R_userid | apply R_vods | apply H3
    | apply (@preserves_ret R R_refl)
    | apply (@preserves_raise R R_refl)
    | apply (@preserves_lift R R_refl)
    | apply (@preserves_bind R R_trans); [|intros ?]
    | match goal with
      | |- preserves _ (let '(_, _) := ?x in _) => destruct x
      | |- preserves _ (if ?b then _ else _) => destruct b
      | |- preserves _ (match ?x with _ => _ end) => destruct x
      end ].
Qed.

Lemma keeps_vod channel accept_encoding : preserves R (vod channel accept_encoding).
Proof.
  unfold vod. destruct (CHANNEL_FILTER channel);
    [apply keeps_get_inner | apply (@preserves_raise R R_refl)].
Qed.

Lemma keeps_vodonly channel accept_encoding : preserves R (vodonly channel accept_encoding).
Proof.
  unfold vodonly. destruct (CHANNEL_FILTER channel);
    [apply keeps_get_inner | apply (@preserves_raise R R_refl)].
Qed.

End Handlers.

(** ** No cache grows beyond its size *)

Definition full_at_most {V : Type} (c : TTLCache V) : Prop :=
  (List.length (links c) <= maxsize c)%nat.

Definition within_capacity (w : world) : Prop :=
  full_at_most (audiostream_cache w) /\ full_at_most (userid_cache w)
  /\ full_at_most (vods_cache w).

Definition stays_within (w w' : world) : Prop := within_capacity w -> within_capacity w'.

Lemma stays_within_refl w : stays_within w w.
Proof. intros H. exact H. Qed.

Lemma stays_within_trans w1 w2 w3 :
  stays_within w1 w2 -> stays_within w2 w3 -> stays_within w1 w3.
Proof. unfold stays_within. auto. Qed.

Lemma keeps_caches_within w w' : keeps_caches w w' -> stays_within w w'.
Proof.
  intros (H1 & H2 & H3). unfold stays_within, within_capacity. now rewrite H1, H2, H3.
Qed.

Lemma getitem_full_at_most {V : Type} (c : TTLCache V) k now :
  full_at_most c -> full_at_most (snd (getitem c k now)).
Proof.
  unfold full_at_most, getitem. intros H.
  destruct (find k (links c)) as [l|] eqn:E; [|exact H].
  assert (X : (List.length (remove k (links c) ++ [l]) <= maxsize c)%nat).
  { rewrite length_app. cbn. pose proof (remove_found_length _ _ E). lia. }
  destruct (expired now l); exact X.
Qed.

Lemma setitem_full_at_most {V : Type} (c : TTLCache V) k v now :
  full_at_most c -> full_at_most (setitem c k v now).
Proof.
  unfold full_at_most. intros H. rewrite setitem_maxsize.
  now apply setitem_within_maxsize.
Qed.

Section CachedCapacity.
Context {V : Type}.
Variable get : world -> TTLCache V.
Variable set : TTLCache V -> world -> world.
Variable func : json -> M V.
Hypothesis set_within :
  forall c w, (full_at_most (get w) -> full_at_most c) -> stays_within w (set c w).
Hypothesis func_within : forall k, preserves stays_within (func k).

Lemma cached_within k : preserves stays_within (cached get set func k).
Proof.
  unfold cached. destruct (negb (Py.hashable k)).
  - intros w r w' [= _ <-]. apply stays_within_refl.
  - intros w r w'.
    pose proof (@getitem_full_at_most V (get w) k (clock w)) as Hg.
    destruct (getitem (get w) k (clock w)) as [[v|] c]; cbn [snd] in Hg.
    + intros [= _ <-]. now apply set_within.
    + assert (H1 : stays_within w (set c w)) by now apply set_within.
      destruct (func k (set c w)) as [[v|e] w1] eqn:F; apply func_within in F.
      * intros [= _ <-]. eapply stays_within_trans; [exact H1|].
        eapply stays_within_trans; [exact F|].
        apply set_within. apply setitem_full_at_most.
      * intros [= _ <-]. eapply stays_within_trans; eauto.
Qed.

End CachedCapacity.

Lemma get_audiostream_url_within k : preserves stays_within (get_audiostream_url k).
Proof.
  apply cached_within.
  - intros c w Hc (H1 & H2 & H3). repeat split; auto.
  - intros a w r w' H. apply keeps_caches_within.
    unfold keeps_caches. pose proof (get_audiostream_url_inner_cache _ _ H) as E.
    destruct a; try (injection H as _ <-; auto).
    rewrite get_audiostream_url_inner_eq in H.
    destruct (run _ w) as [[p|e] w1] eqn:Hr; apply run_world in Hr;
      destruct Hr as (_ & Hk & _).
    + destruct (negb (returncode p =? 0)); injection H as _ <-; exact Hk.
    + injection H as _ <-. exact Hk.
Qed.

Lemma fetch_userid_within k : preserves stays_within (fetch_userid k).
Proof.
  apply cached_within.
  - intros c w Hc (H1 & H2 & H3). repeat split; auto.
  - intros a w r w' H. apply keeps_caches_within. eapply fetch_json_keeps_caches; eauto.
Qed.

Lemma fetch_vods_within k : preserves stays_within (fetch_vods k).
Proof.
  apply cached_within.
  - intros c w Hc (H1 & H2 & H3). repeat split; auto.
  - intros a w r w' H. apply keeps_caches_within. eapply fetch_json_keeps_caches; eauto.
Qed.

(** X5.  No request makes a cache hold more entries than its size: when the
    three caches are within their sizes before [vod] or [vodonly], they are
    after it, whatever the outcome.  With the caches of the decorators that
    is at most 3000 resolved URLs, 3000 identities and 500 listings; the
    process starts with the caches empty. *)
Theorem X5_caches_within_capacity (channel accept_encoding : string)
    (w : world) (r : result (rss_data * list (string * string))) (w' : world) :
  within_capacity w ->
  configured w ->
  vod channel accept_encoding w = (r, w') \/ vodonly channel accept_encoding w = (r, w') ->
  within_capacity w'
  /\ (List.length (links (audiostream_cache w')) <= 3000)%nat
  /\ (List.length (links (userid_cache w')) <= 3000)%nat
  /\ (List.length (links (vods_cache w')) <= 500)%nat
  /\ forall now client_id secret net procs,
       within_capacity (start now client_id secret net procs).
Proof.
  intros Hw Hc H.
  assert (Hw' : within_capacity w').
  { destruct H as [H|H]; revert Hw.
    - eapply (@keeps_vod stays_within); eauto using stays_within_refl, stays_within_trans,
        get_audiostream_url_within, fetch_userid_within, fetch_vods_within.
    - eapply (@keeps_vodonly stays_within); eauto using stays_within_refl, stays_within_trans,
        get_audiostream_url_within, fetch_userid_within, fetch_vods_within. }
  pose proof (configured_vod _ _ Hc H) as ((Ha & _) & (Hu & _) & (Hv & _)).
  split; [exact Hw'|]. destruct Hw' as (W1 & W2 & W3). unfold full_at_most in *.
  split; [lia|]. split; [lia|]. split; [lia|].
  intros. repeat split; unfold full_at_most; cbn; lia.
Qed.

Lemma X5_witness :
  within_capacity one_video
  /\ configured one_video
  /\ within_capacity (snd (vod "foo" EmptyString one_video))
  /\ List.length (links (userid_cache (snd (vod "foo" EmptyString one_video)))) = 1%nat.
Proof.
  assert (Hw : within_capacity one_video) by (repeat split; unfold full_at_most; cbn; lia).
  assert (Hc : configured one_video) by apply configured_start.
  split; [exact Hw|]. split; [exact Hc|]. split.
  - refine (proj1 (@X5_caches_within_capacity "foo" EmptyString one_video
                     (fst (vod "foo" EmptyString one_video))
                     (snd (vod "foo" EmptyString one_video)) Hw Hc (or_introl _))).
    apply surjective_pairing.
  - vm_compute. reflexivity.
Defined.

Ltac no_lookup :=
  repeat match goal with
         | H : _ /\ _ |- _ => destruct H
         | H : exists _, _ |- _ => destruct H
         end;
  try discriminate; try assumption; try reflexivity;
  try (eexists; split; reflexivity).

(** ** The identity record *)

(** X6.  [extract_userid] changes nothing.  It returns the display name, the
    id and the icon exactly when the record has the three keys and both the
    display name and the id are truthy; it raises [abort(404)] exactly when
    the three keys are there and the name or the id is empty.  A record
    without its [profile_image_url] is neither: the lookup raises. *)
Theorem X6_extract_userid (user_info : json) (w : world) :
  snd (extract_userid user_info w) = w
  /\ (forall name id icon,
        fst (extract_userid user_info w) = Ok (name, id, icon) <->
        (Py.getitem user_info "id" = Ok id
         /\ Py.getitem user_info "display_name" = Ok name
         /\ Py.getitem user_info "profile_image_url" = Ok icon
         /\ Py.truthy name = true /\ Py.truthy id = true))
  /\ (fst (extract_userid user_info w) = Raise (HTTPException 404) <->
      exists name id icon,
        Py.getitem user_info "id" = Ok id
        /\ Py.getitem user_info "display_name" = Ok name
        /\ Py.getitem user_info "profile_image_url" = Ok icon
        /\ Py.truthy name && Py.truthy id = false)
  /\ (Py.getitem user_info "profile_image_url" = Raise KeyError ->
      exists e, fst (extract_userid user_info w) = Raise e /\ status (@Raise unit e) = 500).
Proof.
  unfold extract_userid, bind, lift, ret, abort, raise.
  destruct user_info as [| | | | |kv]; cbn [Py.getitem];
    try (repeat split; intros; no_lookup; fail).
  destruct (Py.dict_get kv "id") as [id0|]; [|repeat split; intros; no_lookup].
  destruct (Py.dict_get kv "display_name") as [name0|]; [|repeat split; intros; no_lookup].
  destruct (Py.dict_get kv "profile_image_url") as [icon0|];
    [|repeat split; intros; no_lookup].
  destruct (Py.truthy name0 && Py.truthy id0) eqn:T; cbn [fst snd].
  - apply andb_prop in T. destruct T as [T1 T2].
    split; [reflexivity|]. split; [|split].
    + intros name id icon. split.
      * intros [= <- <- <-]. auto.
      * intros ([= <-] & [= <-] & [= <-] & _). reflexivity.
    + split; [discriminate|].
      intros (name & id & icon & [= <-] & [= <-] & _ & H).
      rewrite T1, T2 in H. discriminate H.
    + discriminate.
  - split; [reflexivity|]. split; [|split].
    + intros name id icon. split; [discriminate|].
      intros ([= <-] & [= <-] & _ & T1 & T2). rewrite T1, T2 in T. discriminate T.
    + split; [|reflexivity]. intros _. exists name0, id0, icon0. auto.
    + discriminate.
Qed.

(** ** The two routes *)

(** X8.  The two routes answer alike: [add_live] is passed down and never
    read, so [/vodonly/<channel>] is [/vod/<channel>]. *)
Theorem X8_vodonly_is_vod (channel accept_encoding : string) (w : world) :
  vodonly channel accept_encoding w = vod channel accept_encoding w
  /\ forall add_live, get_inner channel add_live accept_encoding w
                      = get_inner channel true accept_encoding w.
Proof.
  split.
  - unfold vod, vodonly. destruct (CHANNEL_FILTER channel); reflexivity.
  - intros add_live. reflexivity.
Qed.

(** ** The statuses a request can end with *)

(** The aborts of the program: 404 and 503.  Every other exception is one
    of Python's. *)
Definition known_abort (e : exn) : Prop :=
  match e with
  | HTTPException code => code = 404 \/ code = 503
  | _ => True
  end.

Definition raises_known {A : Type} (m : M A) : Prop :=
  forall w e w', m w = (Raise e, w') -> known_abort e.

Definition python_error {A : Type} (r : result A) : Prop :=
  forall e, r = Raise e -> match e with HTTPException _ => False | _ => True end.

Lemma getitem_python_error v k : python_error (Py.getitem v k).
Proof.
  unfold python_error, Py.getitem. intros e.
  destruct v; try (intros [= <-]; exact I).
  destruct (Py.dict_get kv k); [discriminate | intros [= <-]; exact I].
Qed.

Lemma getitem0_python_error v : python_error (Py.getitem0 v).
Proof.
  unfold python_error, Py.getitem0. intros e.
  destruct v as [| | |[|c s]|[|x l]|]; try discriminate; intros [= <-]; exact I.
Qed.

Lemma json_loads_python_error b : python_error (json_loads b).
Proof. unfold python_error. intros e. destruct b; try discriminate; intros [= <-]; exact I. Qed.

Lemma iter_python_error v : python_error (Py.iter v).
Proof. unfold python_error. intros e. destruct v; try discriminate; intros [= <-]; exact I. Qed.

Lemma raises_known_lift {A : Type} (r : result A) : python_error r -> raises_known (lift r).
Proof.
  intros H w e w' [= E _]. specialize (H e E). destruct e; try exact I. contradiction.
Qed.

Lemma raises_known_ret {A : Type} (a : A) : raises_known (ret a).
Proof. intros w e w'. discriminate. Qed.

Lemma raises_known_raise {A : Type} (e : exn) : known_abort e -> raises_known (@raise A e).
Proof. intros H w e' w' [= <- _]. exact H. Qed.

Lemma raises_known_bind {A B : Type} (m : M A) (k : A -> M B) :
  raises_known m -> (forall a, raises_known (k a)) -> raises_known (bind m k).
Proof.
  intros Hm Hk w e w'. unfold bind. destruct (m w) as [[a|e0] w1] eqn:E.
  - apply Hk.
  - intros [= <- _]. eapply Hm; eauto.
Qed.

Lemma raises_known_cached {V : Type} get set (func : json -> M V) k :
  (forall a, raises_known (func a)) -> raises_known (cached get set func k).
Proof.
  intros Hf. unfold cached. destruct (negb (Py.hashable k)).
  - apply raises_known_raise. exact I.
  - intros w e w'. destruct (getitem (get w) k (clock w)) as [[v|] c]; [discriminate|].
    destruct (func k (set c w)) as [[v|e0] w1] eqn:F; [discriminate|].
    intros [= <- _]. eapply Hf; eauto.
Qed.

Lemma fetch_json_raises_known id url_template : raises_known (fetch_json id url_template).
Proof.
  intros w e w'. rewrite fetch_json_eq.
  destruct (authorize w) as [[u|e0] w1] eqn:A.
  - destruct (TWITCH_OAUTH_TOKEN w1); try (intros [= <- _]; exact I).
    intros H. apply fetch_attempts_count in H. destruct H as (k & _ & _ & Hraise & _).
    destruct (Hraise e eq_refl) as (-> & _). cbn. auto.
  - intros [= <- _]. apply authorize_raise in A. destruct A as (-> & _). cbn. auto.
Qed.

Lemma get_audiostream_url_raises_known k : raises_known (get_audiostream_url k).
Proof.
  apply raises_known_cached. intros a w e w'.
  destruct a; try (intros [= <- _]; exact I).
  rewrite get_audiostream_url_inner_eq. unfold run.
  destruct (streamlink w) as [|[dt p] rest]; [intros [= <- _]; exact I|].
  destruct (negb (returncode p =? 0)); [intros [= <- _]; exact I | discriminate].
Qed.

Ltac known :=
  repeat first
    [ apply get_audiostream_url_raises_known
    | apply raises_known_ret
    | apply raises_known_raise; cbn; auto; fail
    | apply raises_known_lift;
      first [ apply getitem_python_error | apply getitem0_python_error
            | apply json_loads_python_error | apply iter_python_error ]
    | apply raises_known_cached; intros ?; apply fetch_json_raises_known
    | apply raises_known_bind; [|intros ?]
    | match goal with
      | |- raises_known (let '(_, _) := ?x in _) => destruct x
      | |- raises_known (if ?b then _ else _) => destruct b
      | |- raises_known (match ?x with _ => _ end) => destruct x
      end ].

Lemma add_vod_raises_known feed vod : raises_known (add_vod feed vod).
Proof. unfold add_vod. known. Qed.

Lemma add_vods_raises_known vods : forall feed, raises_known (add_vods feed vods).
Proof.
  induction vods as [|x r IH]; intros feed; cbn [add_vods]; [known|].
  apply raises_known_bind; [apply add_vod_raises_known | exact IH].
Qed.

Lemma construct_rss_raises_known channel vods name icon add_live :
  raises_known (construct_rss channel vods name icon add_live).
Proof.
  intros w e w'. unfold construct_rss.
  set (m := if Py.truthy vods then _ else _).
  assert (Hm : raises_known m).
  { subst m. destruct (Py.truthy vods); [|known].
    apply raises_known_bind; [known|]. intros items. apply add_vods_raises_known. }
  destruct (m w) as [[f|e0] w1] eqn:E; [discriminate|]. apply Hm in E.
  destruct e0; intros [= <- _]; cbn; auto.
Qed.

Lemma get_inner_raises_known channel add_live accept_encoding :
  raises_known (get_inner channel add_live accept_encoding).
Proof.
  unfold get_inner, extract_userid, fetch_userid, fetch_vods.
  pose proof construct_rss_raises_known as H.
  repeat first [ apply H | progress known ].
Qed.

(** X7.  A request ends with one of four statuses: 200, 404, 500 or 503.
    The only aborts in the program are [abort(404)] and [abort(503)]; every
    other exception that leaves a route is one of Python's and is a 500. *)
Theorem X7_statuses (channel accept_encoding : string) (w : world) :
  In (status (fst (vod channel accept_encoding w))) [200; 404; 500; 503]
  /\ In (status (fst (vodonly channel accept_encoding w))) [200; 404; 500; 503]
  /\ match fst (vod channel accept_encoding w) with
     | Raise (HTTPException code) => code = 404 \/ code = 503
     | _ => True
     end.
Proof.
  assert (K : forall add_live w,
             match fst (get_inner channel add_live accept_encoding w) with
             | Raise e => known_abort e
             | Ok _ => True
             end).
  { intros add_live w0.
    destruct (get_inner channel add_live accept_encoding w0) as [[x|e] w1] eqn:E; [exact I|].
    eapply get_inner_raises_known; eauto. }
  unfold vod, vodonly. destruct (CHANNEL_FILTER channel).
  - pose proof (K true w) as K1. pose proof (K false w) as K2.
    destruct (fst (get_inner channel true accept_encoding w)) as [x|[]];
      destruct (fst (get_inner channel false accept_encoding w)) as [y|[]];
      cbn in *; intuition (subst; auto).
  - cbn. auto.
Qed.

(** ** Compression *)

Definition text_xml : list (string * string) := [("Content-Type", "text/xml")].

Definition text_xml_gzip : list (string * string) :=
  [("Content-Type", "text/xml"); ("Content-Encoding", "gzip")].

(** What [get_inner] comes to before the header is looked at. *)
Lemma get_inner_core channel add_live w :
  exists core : result FeedGenerator * world,
    forall accept_encoding,
      get_inner channel add_live accept_encoding w
      = match core with
        | (Ok feed, w') =>
            if Py.contains "gzip" accept_encoding
            then (Ok (Gzip feed, text_xml_gzip), w')
            else (Ok (Atom feed, text_xml), w')
        | (Raise e, w') => (Raise e, w')
        end.
Proof.
  unfold get_inner, bind, text_xml, text_xml_gzip.
  repeat match goal with
         | |- context [match ?x with _ => _ end] =>
             lazymatch x with
             | Py.contains _ _ => fail
             | _ => destruct x
             end
         end.
  all: lazymatch goal with
       | |- exists _, forall _, (if _ then ret (Gzip ?f, _) else _) ?w' = _ =>
           exists (Ok f, w'); intros accept_encoding;
           destruct (Py.contains "gzip" accept_encoding); reflexivity
       | |- exists _, forall _, (Raise ?e, ?w') = _ =>
           exists (Raise e, w'); intros accept_encoding; reflexivity
       | |- exists _, forall _, _ ?w' = _ =>
           eexists (Raise _, w'); intros accept_encoding; reflexivity
       end.
Qed.

(** X9.  The [Accept-Encoding] header decides nothing but the wrapping.  The
    world after the request, the feed and every error are the same for all
    headers; the body is compressed, and [Content-Encoding: gzip] is sent,
    exactly when the text [gzip] occurs somewhere in the header. *)
Theorem X9_gzip_only_wraps (channel : string) (add_live : bool) (accept_encoding : string)
    (w : world) :
  snd (get_inner channel add_live accept_encoding w)
  = snd (get_inner channel add_live EmptyString w)
  /\ match fst (get_inner channel add_live EmptyString w) with
     | Ok (Atom feed, headers) =>
         headers = text_xml
         /\ fst (get_inner channel add_live accept_encoding w)
            = if Py.contains "gzip" accept_encoding
              then Ok (Gzip feed, text_xml_gzip)
              else Ok (Atom feed, text_xml)
     | Ok (Gzip _, _) => False
     | Raise e => fst (get_inner channel add_live accept_encoding w) = Raise e
     end.
Proof.
  destruct (get_inner_core channel add_live w) as [[[feed|e] w'] H].
  - rewrite (H accept_encoding), (H EmptyString).
    change (Py.contains "gzip" EmptyString) with false. cbv iota.
    destruct (Py.contains "gzip" accept_encoding); cbn; auto.
  - rewrite (H accept_encoding), (H EmptyString). cbn. auto.
Qed.

(** ** One run of the resolver *)

Fixpoint newlines (n : nat) : string :=
  match n with
  | O => EmptyString
  | S k => String Py.newline (newlines k)
  end.

Fixpoint ends_with_newline (s : string) : bool :=
  match s with
  | EmptyString => false
  | String c EmptyString => Ascii.eqb c Py.newline
  | String _ r => ends_with_newline r
  end.

(** [rstrip("\n")] takes the newlines at the end away, all of them and
    nothing else. *)
Lemma rstrip_newline_spec s :
  exists n, s = Py.rstrip_newline s ++ newlines n
            /\ ends_with_newline (Py.rstrip_newline s) = false.
Proof.
  induction s as [|c s (n & Hs & He)]; [exists 0%nat; auto|].
  cbn [Py.rstrip_newline]. destruct (Py.rstrip_newline s) as [|c' r'] eqn:E.
  - destruct (Ascii.eqb_spec c Py.newline) as [->|Hc].
    + exists (S n). cbn in *. now rewrite <- Hs.
    + exists n. cbn in *. rewrite <- Hs. split; [reflexivity|].
      now apply Ascii.eqb_neq.
  - exists n. split; [now rewrite Hs at 1|]. exact He.
Qed.

(** X10.  One run of the resolver behind [get_audiostream_url]: the command
    is [streamlink <quoted url> audio --stream-url].  With return code 0 the
    result is the output without the newlines at its end, and only those are
    taken away; with any other return code an exception carries the output,
    and no URL is returned. *)
Theorem X10_resolver_run (u : string) (w : world) (dt : N) (p : completed)
    (rest : list (N * completed)) :
  streamlink w = (dt, p) :: rest ->
  commands (snd (get_audiostream_url_inner (JStr u) w))
  = (commands w ++ [["streamlink"; Py.quote u; "audio"; "--stream-url"]])%list
  /\ (returncode p = 0 ->
      exists url n,
        fst (get_audiostream_url_inner (JStr u) w) = Ok url
        /\ stdout p = url ++ newlines n
        /\ ends_with_newline url = false)
  /\ (returncode p <> 0 ->
      fst (get_audiostream_url_inner (JStr u) w)
      = Raise (Exception (streamlink_error (stdout p)))).
Proof.
  intros Hs. rewrite get_audiostream_url_inner_eq. unfold run. rewrite Hs.
  destruct (Z.eqb_spec (returncode p) 0) as [E|E]; cbn [negb fst snd commands].
  - split; [reflexivity|]. split; [|contradiction].
    intros _. destruct (rstrip_newline_spec (stdout p)) as (n & H1 & H2).
    exists (Py.rstrip_newline (stdout p)), n. auto.
  - split; [reflexivity|]. split; [contradiction | reflexivity].
Qed.

Lemma X10_witness :
  streamlink resolving
  = [(0%N, mk_completed 0 ("https://audio/v1.m3u8" ++ String Py.newline EmptyString))]
  /\ fst (get_audiostream_url_inner (JStr "https://x/v 1") resolving)
     = Ok "https://audio/v1.m3u8"
  /\ commands (snd (get_audiostream_url_inner (JStr "https://x/v 1") resolving))
     = [["streamlink"; "https://x/v%201"; "audio"; "--stream-url"]].
Proof.
  assert (H : streamlink resolving
              = [(0%N, mk_completed 0 ("https://audio/v1.m3u8"
                                        ++ String Py.newline EmptyString))])
    by reflexivity.
  split; [exact H|].
  destruct (@X10_resolver_run "https://x/v 1" resolving _ _ _ H) as (Hc & _ & _).
  split; [vm_compute; reflexivity | exact Hc].
Defined.

(** ** The URL given to the resolver *)

Definition url_char (c : ascii) : bool :=
  Py.always_safe c || Ascii.eqb c "/" || Ascii.eqb c ":" || Ascii.eqb c "%".

Definition kept_char (c : ascii) : bool :=
  Py.always_safe c || Ascii.eqb c "/" || Ascii.eqb c ":".

Lemma quote_char_url_chars c : Py.str_all url_char (Py.quote_char c) = true.
Proof. destruct c as [[] [] [] [] [] [] [] []]; vm_compute; reflexivity. Qed.

Lemma quote_char_kept c : kept_char c = true -> Py.quote_char c = String c EmptyString.
Proof.
  destruct c as [[] [] [] [] [] [] [] []]; vm_compute; intros H;
    first [reflexivity | discriminate H].
Qed.

Lemma quote_char_not_kept c :
  kept_char c = false -> (3 <= String.length (Py.quote_char c))%nat.
Proof.
  destruct c as [[] [] [] [] [] [] [] []]; vm_compute; intros H;
    first [discriminate H | lia].
Qed.

Lemma str_length_app s1 s2 :
  String.length (s1 ++ s2) = (String.length s1 + String.length s2)%nat.
Proof. induction s1 as [|c s1 IH]; cbn; [reflexivity | now rewrite IH]. Qed.

Lemma str_all_app p s1 s2 :
  Py.str_all p (s1 ++ s2) = Py.str_all p s1 && Py.str_all p s2.
Proof.
  induction s1 as [|c s1 IH]; cbn; [reflexivity|]. now rewrite IH, andb_assoc.
Qed.

(** X11.  The URL that [get_audiostream_url] hands to [streamlink] is made
    of letters, digits and the characters [_ . - ~ / : %] only: no blank, no
    quote, no control character.  A URL that has only letters, digits and
    [_ . - ~ / :] is handed over as it is, and only such a URL is. *)
Theorem X11_quoted_url (u : string) :
  Py.str_all url_char (Py.quote u) = true
  /\ (Py.quote u = u <-> Py.str_all kept_char u = true).
Proof.
  split.
  - induction u as [|c u IH]; [reflexivity|]. cbn [Py.quote].
    now rewrite str_all_app, quote_char_url_chars, IH.
  - induction u as [|c u IH]; [split; reflexivity|]. cbn [Py.quote Py.str_all].
    destruct (kept_char c) eqn:K.
    + rewrite (quote_char_kept _ K). cbn. rewrite <- IH. split; congruence.
    + cbn. split; [|discriminate]. intros H. exfalso.
      pose proof (quote_char_not_kept _ K) as L.
      assert (Hlen : forall s, (String.length s <= String.length (Py.quote s))%nat).
      { clear. induction s as [|a s IHs]; cbn; [lia|].
        rewrite str_length_app.
        assert ((1 <= String.length (Py.quote_char a))%nat).
        { destruct (kept_char a) eqn:Ka.
          - rewrite (quote_char_kept _ Ka). cbn. lia.
          - pose proof (quote_char_not_kept _ Ka). lia. }
        lia. }
      apply (f_equal String.length) in H. rewrite str_length_app in H.
      cbn in H. specialize (Hlen u). lia.
Qed.

(** ** The entries of a feed *)

(** The entry that the loop makes of a record. *)
Definition entry_of (vod : json) (e : FeedEntry) : Prop :=
  Py.getitem vod "id" = Ok (entry_guid e)
  /\ Py.getitem vod "title" = Ok (entry_title e)
  /\ (exists link, Py.getitem vod "url" = Ok link /\ entry_link e = Some (link, "related"))
  /\ (exists audio, entry_enclosure e = Some (audio, "audio/mpeg"))
  /\ (exists s date,
        Py.getitem vod "created_at" = Ok (JStr s) /\ Py.strptime s = Some date
        /\ entry_pubDate e = Some date /\ entry_updated e = Some date)
  /\ (exists text, entry_description e = Some text).

Lemma add_vod_ok_entry feed vod w feed' w' :
  add_vod feed vod w = (Ok feed', w') ->
  exists e, feed' = with_entry feed e /\ entry_of vod e.
Proof.
  rewrite add_vod_eq. unfold entry_of.
  destruct (Py.getitem vod "url") as [link|]; [|discriminate].
  destruct (Py.getitem vod "title") as [t|]; [|discriminate].
  destruct (get_audiostream_url link w) as [[audio|] w1]; [|discriminate].
  destruct (Py.getitem vod "thumbnail_url") as [[| | |th| |]|]; try discriminate.
  destruct (Py.getitem vod "description") as [d|]; [|discriminate].
  destruct (description_of link th d) as [text|]; [|discriminate].
  destruct (Py.getitem vod "created_at") as [[| | |c| |]|]; try discriminate.
  destruct (Py.strptime c) as [date|] eqn:P; [|discriminate].
  destruct (Py.getitem vod "id") as [guid|]; [|discriminate].
  intros [= <- <-]. eexists. split; [reflexivity|]. cbn.
  repeat split; eauto 6.
Qed.

Lemma add_vods_ok_entries vods : forall feed w feed' w',
  add_vods feed vods w = (Ok feed', w') ->
  exists es,
    Forall2 entry_of vods es
    /\ feed_entries feed' = (rev es ++ feed_entries feed)%list
    /\ feed_image feed' = feed_image feed /\ feed_id feed' = feed_id feed
    /\ feed_title feed' = feed_title feed /\ feed_link feed' = feed_link feed
    /\ feed_author feed' = feed_author feed
    /\ feed_description feed' = feed_description feed.
Proof.
  induction vods as [|x r IH]; intros feed w feed' w'; cbn [add_vods].
  - intros [= <- <-]. exists []. repeat split. constructor.
  - unfold bind. destruct (add_vod feed x w) as [[f1|e] w1] eqn:E; [|discriminate].
    apply add_vod_ok_entry in E. destruct E as (e1 & -> & He1).
    intros H. apply IH in H.
    destruct H as (es & HF & Hent & H1 & H2 & H3 & H4 & H5 & H6).
    exists (e1 :: es). split; [constructor; assumption|].
    split; [|cbn in *; tauto].
    rewrite Hent. cbn. now rewrite <- app_assoc.
Qed.

(** X12.  A feed that [construct_rss] returns has one entry for every record
    of the listing, none skipped and none added, the entry of the first
    record last.  Each entry has the record's [id] as GUID, its [title], its
    [url] as related link, an enclosure of type [audio/mpeg], and the date of
    [created_at] both as publication and as update date.  At the channel
    level the image is the icon and the title is made of the display name. *)
Theorem X12_one_entry_per_record (channel : string) (vods : list json) (name icon : json)
    (add_live : bool) (w : world) (feed : FeedGenerator) (w' : world) :
  construct_rss channel (JArr vods) name icon add_live w = (Ok feed, w') ->
  Forall2 entry_of vods (rev (feed_entries feed))
  /\ List.length (feed_entries feed) = List.length vods
  /\ feed_image feed = icon
  /\ feed_title feed = Py.str name ++ "'s Twitch video RSS"
  /\ feed_description feed = "The RSS Feed of " ++ Py.str name ++ "'s videos on Twitch".
Proof.
  intros H.
  assert (Hv : add_vods (new_feed name icon) vods w = (Ok feed, w')).
  { destruct vods as [|x r]; [exact H|].
    rewrite construct_rss_eq in H by discriminate.
    destruct (add_vods (new_feed name icon) (x :: r) w) as [[f|[]] w1];
      try discriminate; exact H. }
  apply add_vods_ok_entries in Hv.
  destruct Hv as (es & HF & Hent & H1 & _ & H3 & _ & _ & H6).
  cbn [new_feed feed_entries feed_image feed_title feed_description] in *.
  rewrite app_nil_r in Hent. rewrite Hent, rev_involutive, length_rev.
  repeat split; try assumption.
  symmetry. eapply Forall2_length; eauto.
Qed.

(** Two videos, both resolved. *)
Definition two_videos : json :=
  JArr [video "v1" "First" "https://x/v1" "https://x/t.jpg" "d" "2020-01-01T00:00:00Z";
        video "v2" "Second" "https://x/v2" "https://x/t.jpg" EmptyString "2020-01-02T00:00:00Z"].

Lemma X12_witness :
  exists feed w',
    construct_rss "foo" two_videos (JStr "Foo") JNull true resolving_twice = (Ok feed, w')
    /\ List.length (feed_entries feed) = 2%nat
    /\ Forall2 entry_of
         [video "v1" "First" "https://x/v1" "https://x/t.jpg" "d" "2020-01-01T00:00:00Z";
          video "v2" "Second" "https://x/v2" "https://x/t.jpg" EmptyString "2020-01-02T00:00:00Z"]
         (rev (feed_entries feed)).
Proof.
  destruct (construct_rss "foo" two_videos (JStr "Foo") JNull true resolving_twice)
    as [[feed|e] w'] eqn:E.
  - exists feed, w'. split; [reflexivity|]. unfold two_videos in E.
    destruct (@X12_one_entry_per_record _ _ _ _ _ _ _ _ E) as (HF & Hl & _).
    split; [exact Hl | exact HF].
  - exfalso. vm_compute in E. discriminate E.
Defined.

(** ** What building the feed touches *)

(** Building the feed stays away from the network, the credential and the
    two caches of the API. *)
Definition feed_frame (w w' : world) : Prop :=
  requests w' = requests w /\ upstream w' = upstream w
  /\ TWITCH_OAUTH_TOKEN w' = TWITCH_OAUTH_TOKEN w
  /\ TWITCH_OAUTH_EXPIRE_EPOCH w' = TWITCH_OAUTH_EXPIRE_EPOCH w
  /\ userid_cache w' = userid_cache w /\ vods_cache w' = vods_cache w.

Lemma feed_frame_refl w : feed_frame w w.
Proof. repeat split. Qed.

Lemma feed_frame_trans w1 w2 w3 : feed_frame w1 w2 -> feed_frame w2 w3 -> feed_frame w1 w3.
Proof. unfold feed_frame. intuition congruence. Qed.

Lemma preserves_cached {V : Type} (R : world -> world -> Prop)
    (get : world -> TTLCache V) (set : TTLCache V -> world -> world)
    (func : json -> M V) k :
  (forall w, R w w) -> (forall w1 w2 w3, R w1 w2 -> R w2 w3 -> R w1 w3) ->
  (forall c w, R w (set c w)) ->
  (forall a, preserves R (func a)) ->
  preserves R (cached get set func k).
Proof.
  intros Hrefl Htrans Hset Hfunc. unfold cached. destruct (negb (Py.hashable k)).
  - intros w r w' [= _ <-]. apply Hrefl.
  - intros w r w'. destruct (getitem (get w) k (clock w)) as [[v|] c].
    + intros [= _ <-]. apply Hset.
    + destruct (func k (set c w)) as [[v|e] w1] eqn:F; apply Hfunc in F;
        intros [= _ <-]; eauto.
Qed.

Lemma get_audiostream_url_feed_frame k : preserves feed_frame (get_audiostream_url k).
Proof.
  apply preserves_cached.
  - exact feed_frame_refl.
  - exact feed_frame_trans.
  - intros c w. repeat split.
  - intros a w r w'. destruct a; try (intros [= _ <-]; apply feed_frame_refl).
    rewrite get_audiostream_url_inner_eq. unfold run.
    destruct (streamlink w) as [|[dt p] rest].
    + intros [= _ <-]. repeat split.
    + destruct (negb (returncode p =? 0)); intros [= _ <-]; repeat split.
Qed.

Lemma get_audiostream_url_one_command k w r w' :
  get_audiostream_url k w = (r, w') ->
  (List.length (commands w') <= List.length (commands w) + 1)%nat.
Proof.
  unfold get_audiostream_url, cached. destruct (negb (Py.hashable k)).
  - intros [= _ <-]. lia.
  - destruct (getitem (audiostream_cache w) k (clock w)) as [[v|] c].
    + intros [= _ <-]. cbn. lia.
    + destruct (get_audiostream_url_inner k (set_audiostream_cache c w)) as [r1 w1] eqn:F.
      assert (B : (List.length (commands w1) <= List.length (commands w) + 1)%nat).
      { destruct k; try (injection F as _ <-; cbn; lia).
        rewrite get_audiostream_url_inner_eq in F.
        destruct (run _ _) as [[p|e] w2] eqn:Hr; apply run_world in Hr;
          destruct Hr as (Hc & _); cbn in Hc.
        - destruct (negb (returncode p =? 0)); injection F as _ <-;
            rewrite Hc, length_app; cbn; lia.
        - injection F as _ <-. rewrite Hc, length_app. cbn. lia. }
      destruct r1; intros [= _ <-]; cbn; exact B.
Qed.

Lemma add_vod_one_command feed vod w r w' :
  add_vod feed vod w = (r, w') ->
  (List.length (commands w') <= List.length (commands w) + 1)%nat.
Proof.
  rewrite add_vod_eq.
  destruct (Py.getitem vod "url") as [link|]; [|intros [= _ <-]; lia].
  destruct (Py.getitem vod "title") as [t|]; [|intros [= _ <-]; lia].
  destruct (get_audiostream_url link w) as [[audio|] w1] eqn:A;
    apply get_audiostream_url_one_command in A; [|intros [= _ <-]; exact A].
  repeat match goal with
         | |- context [match ?x with _ => _ end] => destruct x
         end; intros [= _ <-]; exact A.
Qed.

Lemma add_vods_commands vods : forall feed w r w',
  add_vods feed vods w = (r, w') ->
  (List.length (commands w') <= List.length (commands w) + List.length vods)%nat.
Proof.
  induction vods as [|x rest IH]; intros feed w r w'; cbn [add_vods List.length].
  - intros [= _ <-]. lia.
  - unfold bind. destruct (add_vod feed x w) as [[f|e] w1] eqn:E;
      apply add_vod_one_command in E.
    + intros H. apply IH in H. lia.
    + intros [= _ <-]. lia.
Qed.

(** X13.  [construct_rss] asks nothing of the network: the list of calls and
    the answers waiting upstream, the token and its expiry, the identity
    cache and the listing cache are after it what they were before.  It
    starts at most one [streamlink] for each record of the listing, and none
    when there is nothing to go through. *)
Theorem X13_construct_rss_frame (channel : string) (vods name icon : json) (add_live : bool)
    (w : world) (r : result FeedGenerator) (w' : world) :
  construct_rss channel vods name icon add_live w = (r, w') ->
  feed_frame w w'
  /\ match Py.iter vods with
     | Ok items =>
         (List.length (commands w') <= List.length (commands w) + List.length items)%nat
     | Raise _ => commands w' = commands w
     end.
Proof.
  intros H. split.
  - revert H. apply keeps_construct_rss.
    + exact feed_frame_refl.
    + exact feed_frame_trans.
    + exact get_audiostream_url_feed_frame.
  - unfold construct_rss in H.
    destruct (Py.truthy vods).
    + unfold bind, lift in H. destruct (Py.iter vods) as [items|e].
      * destruct (add_vods (new_feed name icon) items w) as [r1 w1] eqn:E.
        apply add_vods_commands in E.
        destruct r1 as [f|[]]; cbv beta delta [abort raise] in H;
          injection H as _ <-; exact E.
      * destruct e; cbv beta iota delta [abort raise] in H;
          injection H as _ <-; reflexivity.
    + cbv beta iota delta [ret] in H. injection H as _ <-.
      destruct (Py.iter vods); [lia | reflexivity].
Qed.

Lemma X13_witness :
  exists r w',
    construct_rss "foo" two_videos (JStr "Foo") JNull true resolving_twice = (r, w')
    /\ feed_frame resolving_twice w'
    /\ (List.length (commands w') <= 2)%nat.
Proof.
  destruct (construct_rss "foo" two_videos (JStr "Foo") JNull true resolving_twice)
    as [r w'] eqn:E.
  exists r, w'. split; [reflexivity|].
  destruct (@X13_construct_rss_frame _ _ _ _ _ _ _ _ E) as (Hf & Hc).
  split; [exact Hf | exact Hc].
Defined.

(** ** How much one request asks upstream *)

Definition asks_at_most (n : nat) (w w' : world) : Prop :=
  (List.length (requests w') <= List.length (requests w) + n)%nat.

Lemma asks_bind {A B : Type} a b (m : M A) (k : A -> M B) :
  preserves (asks_at_most a) m -> (forall x, preserves (asks_at_most b) (k x)) ->
  preserves (asks_at_most (a + b)) (bind m k).
Proof.
  intros Hm Hk w r w'. unfold bind, asks_at_most in *.
  destruct (m w) as [[x|e] w1] eqn:E; apply Hm in E.
  - intros H. apply Hk in H. lia.
  - intros [= _ <-]. lia.
Qed.

Lemma asks_ret {A : Type} n (a : A) : preserves (asks_at_most n) (ret a).
Proof. intros w r w' [= _ <-]. unfold asks_at_most. lia. Qed.

Lemma asks_raise {A : Type} n e : preserves (asks_at_most n) (@raise A e).
Proof. intros w r w' [= _ <-]. unfold asks_at_most. lia. Qed.

Lemma asks_lift {A : Type} n (x : result A) : preserves (asks_at_most n) (lift x).
Proof. intros w r w' [= _ <-]. unfold asks_at_most. lia. Qed.

Lemma authorize_request_bound : preserves (asks_at_most 3) authorize.
Proof.
  intros w r w' H. unfold asks_at_most. rewrite authorize_eq in H.
  destruct (TWITCH_OAUTH_EXPIRE_EPOCH w >=? clock w).
  - injection H as _ <-. lia.
  - apply authorize_attempts_count in H. destruct H as (k & Hk & -> & _).
    rewrite length_app, repeat_length. lia.
Qed.

Lemma fetch_json_request_bound id url_template :
  preserves (asks_at_most 6) (fetch_json id url_template).
Proof.
  intros w r w' H. unfold asks_at_most. rewrite fetch_json_eq in H.
  destruct (authorize w) as [[u|e] w1] eqn:A; apply authorize_request_bound in A;
    unfold asks_at_most in A.
  - destruct (TWITCH_OAUTH_TOKEN w1); try (injection H as _ <-; lia).
    apply fetch_attempts_count in H. destruct H as (k & Hk & -> & _).
    rewrite length_app, repeat_length. lia.
  - injection H as _ <-. lia.
Qed.

Lemma cached_fetch_request_bound get set url_template k :
  (forall c w0, requests (set c w0) = requests w0) ->
  preserves (asks_at_most 6) (cached get set (fun a => fetch_json a url_template) k).
Proof.
  intros Hset w r w'. unfold cached, asks_at_most. destruct (negb (Py.hashable k)).
  - intros [= _ <-]. lia.
  - destruct (getitem (get w) k (clock w)) as [[v|] c].
    + intros [= _ <-]. rewrite Hset. lia.
    + destruct (fetch_json k url_template (set c w)) as [[v|e] w1] eqn:F;
        apply fetch_json_request_bound in F; unfold asks_at_most in F;
        rewrite Hset in F; intros [= _ <-]; rewrite ?Hset; exact F.
Qed.

Lemma construct_rss_asks_nothing channel vods name icon add_live :
  preserves (asks_at_most 0) (construct_rss channel vods name icon add_live).
Proof.
  intros w r w' H.
  assert (F : feed_frame w w').
  { revert H. apply keeps_construct_rss.
    - exact feed_frame_refl.
    - exact feed_frame_trans.
    - exact get_audiostream_url_feed_frame. }
  destruct F as (F & _). unfold asks_at_most. rewrite F. lia.
Qed.

Ltac asks_leaf :=
  first [ apply asks_ret | apply asks_raise | apply asks_lift
        | apply construct_rss_asks_nothing ].

Lemma get_inner_request_bound channel add_live accept_encoding :
  preserves (asks_at_most 12) (get_inner channel add_live accept_encoding).
Proof.
  unfold get_inner, extract_userid.
  apply (@asks_bind _ _ 6 6);
    [apply cached_fetch_request_bound; reflexivity | intros ?].
  repeat first
    [ asks_leaf
    | apply (@asks_bind _ _ 6 0);
      [apply cached_fetch_request_bound; reflexivity | intros ?]
    | apply (@asks_bind _ _ 0 6); [solve [repeat first
        [ asks_leaf
        | apply (@asks_bind _ _ 0 0); [|intros ?]
        | match goal with
          | |- preserves _ (if ?b then _ else _) => destruct b
          | |- preserves _ (match ?x with _ => _ end) => destruct x
          end ]] | intros ?]
    | apply (@asks_bind _ _ 0 0); [|intros ?]
    | match goal with
      | |- preserves _ (let '(_, _) := ?x in _) => destruct x
      | |- preserves _ (if ?b then _ else _) => destruct b
      | |- preserves _ (match ?x with _ => _ end) => destruct x
      end ].
Qed.

(** X14.  One request asks little of the API: whatever the answers, [vod]
    and [vodonly] make at most twelve calls upstream, three posts to the
    token endpoint and three calls of the API for the identity and as many
    for the listing. *)
Theorem X14_calls_per_request (channel accept_encoding : string)
    (w : world) (r : result (rss_data * list (string * string))) (w' : world) :
  vod channel accept_encoding w = (r, w') \/ vodonly channel accept_encoding w = (r, w') ->
  (List.length (requests w') <= List.length (requests w) + 12)%nat.
Proof.
  unfold vod, vodonly. destruct (CHANNEL_FILTER channel).
  - intros [H|H]; eapply get_inner_request_bound; eauto.
  - intros [H|H]; injection H as _ <-; lia.
Qed.

(** The API is down after the token was given: every call fails. *)
Definition api_down : world :=
  start 5000 "id" "secret"
        [(1%N, token_answer "token" 3600); (3%N, Failure); (3%N, Failure); (3%N, Failure)] [].

Lemma X14_witness :
  vod "foo" EmptyString api_down
  = (Raise (HTTPException 503), snd (vod "foo" EmptyString api_down))
  /\ List.length (requests (snd (vod "foo" EmptyString api_down))) = 4%nat
  /\ (List.length (requests (snd (vod "foo" EmptyString api_down)))
      <= List.length (requests api_down) + 12)%nat.
Proof.
  assert (H : vod "foo" EmptyString api_down
              = (Raise (HTTPException 503), snd (vod "foo" EmptyString api_down)))
    by (vm_compute; reflexivity).
  split; [exact H|]. split; [vm_compute; reflexivity|].
  exact (@X14_calls_per_request "foo" EmptyString api_down _ _ (or_introl H)).
Defined.

(** ** The cache of resolved URLs *)

(** X15.  A URL that [get_audiostream_url] returned is kept: it leaves a
    live link under the page URL as it was given, which expires 24 hours
    after the run of the resolver that produced it.  While that link is in
    the cache and the clock is below its expiry, the next call for the page
    returns the same URL and starts no subprocess. *)
Theorem X15_resolved_url_is_kept (k : json) (url : string) (w w1 : world) :
  configured w ->
  get_audiostream_url k w = (Ok url, w1) ->
  exists l,
    find k (links (audiostream_cache w1)) = Some l /\ value l = url /\ clock w1 < expires l
    /\ (fst (getitem (audiostream_cache w) k (clock w)) = None ->
        expires l = clock w1 + 24 * 60 * 60)
    /\ forall w2,
         find k (links (audiostream_cache w2)) = Some l -> clock w2 < expires l ->
         exists w3,
           get_audiostream_url k w2 = (Ok url, w3)
           /\ commands w3 = commands w2 /\ streamlink w3 = streamlink w2
           /\ requests w3 = requests w2.
Proof.
  intros ((Hm & Ht) & _) H.
  destruct (@cached_ok string audiostream_cache set_audiostream_cache
              get_audiostream_url_inner (fun _ _ => eq_refl) (fun _ _ => eq_refl)
              get_audiostream_url_inner_cache k w url w1)
    as (l & Hf & Hv & Hlt & Hexp); [lia | rewrite Ht; reflexivity | exact H |].
  exists l. split; [exact Hf|]. split; [exact Hv|]. split; [exact Hlt|]. split.
  - intros Hmiss. rewrite (Hexp Hmiss), Ht. reflexivity.
  - intros w2 Hf2 Hlt2. unfold get_audiostream_url.
    rewrite (@cached_hit string audiostream_cache set_audiostream_cache
               get_audiostream_url_inner k w2 l Hf2 Hlt2).
    rewrite Hv. eexists. split; [reflexivity|]. repeat split.
Qed.

Lemma X15_witness :
  let w1 := snd (get_audiostream_url (JStr "https://x/v1") resolving) in
  configured resolving
  /\ get_audiostream_url (JStr "https://x/v1") resolving = (Ok "https://audio/v1.m3u8", w1)
  /\ exists w3,
       get_audiostream_url (JStr "https://x/v1") (set_clock (5000 + 86399) w1)
       = (Ok "https://audio/v1.m3u8", w3)
       /\ commands w3 = commands w1.
Proof.
  cbv zeta.
  assert (Hc : configured resolving) by apply configured_start.
  assert (H : get_audiostream_url (JStr "https://x/v1") resolving
              = (Ok "https://audio/v1.m3u8",
                 snd (get_audiostream_url (JStr "https://x/v1") resolving)))
    by (vm_compute; reflexivity).
  split; [exact Hc|]. split; [exact H|].
  destruct (@X15_resolved_url_is_kept _ _ _ _ Hc H) as (l & Hf & _ & _ & Hexp & Hagain).
  destruct (Hagain (set_clock (5000 + 86399)
                      (snd (get_audiostream_url (JStr "https://x/v1") resolving))))
    as (w3 & H3 & Hcmd & _).
  - exact Hf.
  - rewrite Hexp by reflexivity.
    assert (E : clock (snd (get_audiostream_url (JStr "https://x/v1") resolving)) = 5000)
      by (vm_compute; reflexivity).
    rewrite E. cbn. lia.
  - exists w3. split; [exact H3 | exact Hcmd].
Defined.

Lemma X6_witness :
  Py.getitem (JObj [("id", JStr "42"); ("display_name", JStr "Foo")]) "profile_image_url"
  = Raise KeyError
  /\ (exists e,
        fst (extract_userid (JObj [("id", JStr "42"); ("display_name", JStr "Foo")]) no_videos)
        = Raise e /\ status (@Raise unit e) = 500)
  /\ fst (extract_userid (user_record (JStr "42") (JStr EmptyString) JNull) no_videos)
     = Raise (HTTPException 404).
Proof.
  split; [reflexivity|]. split.
  - destruct (X6_extract_userid (JObj [("id", JStr "42"); ("display_name", JStr "Foo")])
                no_videos) as (_ & _ & _ & H).
    exact (H eq_refl).
  - destruct (X6_extract_userid (user_record (JStr "42") (JStr EmptyString) JNull) no_videos)
      as (_ & _ & H & _).
    apply H. exists (JStr EmptyString), (JStr "42"), JNull. repeat split.
Defined.
